(** * pdf-downloader: a shallow embedding of [download_pdfs.py]

    The development follows the source file top-down: the Python string
    primitives the program calls, [urllib.parse.urlparse], the salted
    string hash, [filename_from_url], [pathlib] paths, the file system,
    [resolve_collision], the retry policy installed by [create_session],
    [download_one] and the dispatch loop of [main].

    Conventions.
    - A Python [str] is a Rocq [string]; the model is exact on ASCII text
      (a non-ASCII character is represented by its UTF-8 bytes).
    - A Python [bytes] value is a [list byte].
    - Python [int] is [Z].
    - A call that can raise returns [Exn + A]; code that also touches the
      file system lives in the monad [M] below. *)

From Stdlib Require Import ZArith QArith Qminmax Lia.
From Stdlib.Strings Require Import Ascii String Byte.
From stdpp Require Import base option list strings pretty gmap fin_maps.

Local Open Scope Z_scope.

(** ** Exceptions *)

(** Only subclasses of [Exception] are modelled; [str(e)] is [message e]. *)
Inductive ExnKind :=
  | ValueError
  | OSError
  | RequestException.

Record Exn := mkExn { kind : ExnKind; message : string }.

(** ** Python string primitives *)

Module Py.

(** [c in s] *)
Fixpoint contains (c : ascii) (s : string) : bool :=
  match s with
  | EmptyString => false
  | String d s' => if Ascii.eqb c d then true else contains c s'
  end.

(** [s.split(c)[0]], which is also [s[:s.find(c)]] when [c in s] *)
Fixpoint before (c : ascii) (s : string) : string :=
  match s with
  | EmptyString => EmptyString
  | String d s' => if Ascii.eqb c d then EmptyString else String d (before c s')
  end.

(** [s[s.find(c)+1:]] when [c in s]; the empty string otherwise *)
Fixpoint after (c : ascii) (s : string) : string :=
  match s with
  | EmptyString => EmptyString
  | String d s' => if Ascii.eqb c d then s' else after c s'
  end.

(** [s[s.rfind(c)+1:]]: the text after the last [c], all of [s] when
    there is none *)
Fixpoint after_last (c : ascii) (s : string) : string :=
  match s with
  | EmptyString => EmptyString
  | String d s' =>
      if contains c s' then after_last c s'
      else if Ascii.eqb c d then s' else s
  end.

(** [s[:s.rfind(c)+1]]: the text up to and including the last [c] *)
Fixpoint upto_last (c : ascii) (s : string) : string :=
  match s with
  | EmptyString => EmptyString
  | String d s' =>
      if contains c s' then String d (upto_last c s')
      else if Ascii.eqb c d then String d EmptyString else EmptyString
  end.

(** [s.replace(a, b)] for one-character [a] and [b] *)
Fixpoint replace (a b : ascii) (s : string) : string :=
  match s with
  | EmptyString => EmptyString
  | String d s' => String (if Ascii.eqb a d then b else d) (replace a b s')
  end.

(** [s.replace(a, "")] *)
Fixpoint remove (a : ascii) (s : string) : string :=
  match s with
  | EmptyString => EmptyString
  | String d s' => if Ascii.eqb a d then remove a s' else String d (remove a s')
  end.

(** [s.lstrip(chars)] for the set of characters satisfying [p] *)
Fixpoint lstrip (p : ascii -> bool) (s : string) : string :=
  match s with
  | EmptyString => EmptyString
  | String d s' => if p d then lstrip p s' else s
  end.

Fixpoint all (p : ascii -> bool) (s : string) : bool :=
  match s with
  | EmptyString => true
  | String d s' => p d && all p s'
  end.

Definition code (c : ascii) : N := N_of_ascii c.

Definition between (lo hi : ascii) (c : ascii) : bool :=
  ((code lo <=? code c) && (code c <=? code hi))%N.

Definition is_upper : ascii -> bool := between "A" "Z".
Definition is_lower : ascii -> bool := between "a" "z".
Definition is_digit : ascii -> bool := between "0" "9".
Definition is_ascii (c : ascii) : bool := (code c <? 128)%N.

(** [c.isascii() and c.isalpha()] *)
Definition is_ascii_alpha (c : ascii) : bool := is_upper c || is_lower c.

Definition lower_char (c : ascii) : ascii :=
  if is_upper c then ascii_of_N (code c + 32) else c.

(** [s.lower()] on ASCII text *)
Fixpoint lower (s : string) : string :=
  match s with
  | EmptyString => EmptyString
  | String d s' => String (lower_char d) (lower s')
  end.

Definition upper_char (c : ascii) : ascii :=
  if is_lower c then ascii_of_N (code c - 32) else c.

(** [s.upper()] on ASCII text *)
Fixpoint upper (s : string) : string :=
  match s with
  | EmptyString => EmptyString
  | String d s' => String (upper_char d) (upper s')
  end.

(** [s[:2] == "//"] *)
Definition starts_with_2slash (s : string) : bool :=
  match s with
  | String "/" (String "/" _) => true
  | _ => false
  end.

Definition drop2 (s : string) : string :=
  match s with
  | String _ (String _ s') => s'
  | _ => EmptyString
  end.

(** the longest prefix of [s] free of the characters satisfying [p],
    and the rest *)
Fixpoint span_until (p : ascii -> bool) (s : string) : string * string :=
  match s with
  | EmptyString => (EmptyString, EmptyString)
  | String d s' =>
      if p d then (EmptyString, s)
      else let '(a, b) := span_until p s' in (String d a, b)
  end.

(** [not s] *)
Definition is_empty (s : string) : bool :=
  match s with EmptyString => true | _ => false end.

(** [str(n)] for an [int] *)
Definition str_of_int (n : Z) : string := pretty n.

End Py.

(** ** The environment of a run

    What the program obtains from outside its own text: the interpreter's
    hash secret, the two host-name checks of [urllib.parse] that are not
    transcribed here, the remote servers and the failures of system
    calls. *)

(** An HTTP response as [requests] presents it: status line, the seconds
    its [Retry-After] header asks for (if it carries one), the URL it
    reports, and the body as [iter_content] yields it (the chunks, then
    possibly an error). *)
Record Response := mkResponse {
  status_code : Z;
  reason : string;
  retry_after : option Q;
  resp_url : string;
  chunks : list (list byte);
  stream_error : option Exn
}.

(** [bool(response.headers.get("Retry-After"))] *)
Definition has_retry_after (r : Response) : bool :=
  match retry_after r with Some _ => true | None => false end.

(** What one attempt to send a request ends in. *)
Inductive Attempt :=
  | ConnectFailed (e : Exn)   (* no connection, or another error retried for every method *)
  | ReadFailed (e : Exn)      (* connection broke while reading the reply *)
  | Fatal (e : Exn)           (* an error that is never retried (invalid URL, ...) *)
  | Replied (r : Response).

(** System calls on paths (paths are given as [str(path)]). *)
Inductive Op :=
  | OpStat (p : string)
  | OpOpen (p : string)
  | OpWrite (p : string) (offset : nat)
  | OpClose (p : string)
  | OpRename (src dst : string)
  | OpUnlink (p : string).

Record Env := mkEnv {
  (** the two 64-bit halves of the interpreter's hash secret
      (random per process unless PYTHONHASHSEED fixes them) *)
  hash_secret : Z * Z;
  (** [urllib.parse._check_bracketed_host]: the error it raises, if any *)
  check_bracketed_host : string -> option Exn;
  (** the NFKC check of [urllib.parse._checknetloc] on a non-ASCII netloc *)
  checknetloc_nfkc : string -> option Exn;
  (** [server url n]: the outcome of the [n]-th attempt to GET [url] *)
  server : string -> nat -> Attempt;
  (** [fault op]: the error the operating system answers [op] with, if
      it does not carry it out *)
  fault : Op -> option Exn
}.

(** ** [urllib.parse.urlparse], as far as the [path] component *)

Module UrlParse.
Import Py.

Definition scheme_chars : string :=
  "abcdefghijklmnopqrstuvwxyzABCDEFGHIJKLMNOPQRSTUVWXYZ0123456789+-.".

Definition uses_params : list string :=
  [""; "ftp"; "hdl"; "prospero"; "http"; "imap"; "https"; "shttp";
   "rtsp"; "rtspu"; "sip"; "sips"; "mms"; "sftp"; "tel"].

(** a character of [_WHATWG_C0_CONTROL_OR_SPACE] *)
Definition is_c0_or_space (c : ascii) : bool := (code c <=? 32)%N.

Definition is_delim (c : ascii) : bool :=
  Ascii.eqb c "/" || Ascii.eqb c "?" || Ascii.eqb c "#".

Definition invalid_ipv6 : Exn := mkExn ValueError "Invalid IPv6 URL".

(** [_splitnetloc(url, 2)] *)
Definition _splitnetloc (url : string) : string * string :=
  span_until is_delim (drop2 url).

Definition starts_with_colon (s : string) : bool :=
  match s with String ":" _ => true | _ => false end.

Definition _check_bracketed_netloc (env : Env) (netloc : string) : option Exn :=
  let hostname_and_port := after_last "@" netloc in
  if contains "[" hostname_and_port then
    let before_bracket := before "[" hostname_and_port in
    let bracketed := after "[" hostname_and_port in
    if negb (is_empty before_bracket) then Some invalid_ipv6
    else
      let hostname := before "]" bracketed in
      let port := after "]" bracketed in
      if negb (is_empty port) && negb (starts_with_colon port)
      then Some invalid_ipv6
      else check_bracketed_host env hostname
  else check_bracketed_host env (before ":" hostname_and_port).

Definition _checknetloc (env : Env) (netloc : string) : option Exn :=
  if is_empty netloc || all is_ascii netloc then None
  else checknetloc_nfkc env netloc.

(** [urlsplit(url)]: scheme, netloc and path of the result *)
Definition urlsplit (env : Env) (url : string) : Exn + (string * string * string) :=
  let url := lstrip is_c0_or_space url in
  let url := remove "010" (remove "013" (remove "009" url)) in
  let '(scheme, url) :=
    let head := before ":" url in
    if contains ":" url && negb (is_empty head)
       && match url with String c _ => is_ascii_alpha c | EmptyString => false end
       && all (fun c => contains c scheme_chars) head
    then (lower head, after ":" url)
    else (EmptyString, url) in
  let split :=
    if starts_with_2slash url then
      let '(netloc, rest) := _splitnetloc url in
      if (contains "[" netloc && negb (contains "]" netloc))
         || (contains "]" netloc && negb (contains "[" netloc))
      then inl invalid_ipv6
      else if contains "[" netloc && contains "]" netloc then
        match _check_bracketed_netloc env netloc with
        | Some e => inl e
        | None => inr (netloc, rest)
        end
      else inr (netloc, rest)
    else inr (EmptyString, url) in
  match split with
  | inl e => inl e
  | inr (netloc, url) =>
      let url := if contains "#" url then before "#" url else url in
      let url := if contains "?" url then before "?" url else url in
      match _checknetloc env netloc with
      | Some e => inl e
      | None => inr (scheme, netloc, url)
      end
  end.

(** the first component of [_splitparams(url)] *)
Definition _splitparams (url : string) : string :=
  if contains "/" url then
    let last := after_last "/" url in
    if contains ";" last then upto_last "/" url +:+ before ";" last
    else url
  else before ";" url.

(** [urlparse(url).path] *)
Definition urlparse_path (env : Env) (url : string) : Exn + string :=
  match urlsplit env url with
  | inl e => inl e
  | inr (scheme, _, url) =>
      if bool_decide (scheme ∈ uses_params) && contains ";" url
      then inr (_splitparams url)
      else inr url
  end.

End UrlParse.

(** ** [os.path.basename] (POSIX) and [urllib.parse.unquote] *)

Definition basename (p : string) : string := Py.after_last "/" p.

Definition hex_value (c : ascii) : option N :=
  let n := Py.code c in
  if Py.is_digit c then Some (n - 48)%N
  else if Py.between "a" "f" c then Some (n - 87)%N
  else if Py.between "A" "F" c then Some (n - 55)%N
  else None.

(** Every [%XX] with two hexadecimal digits becomes the byte [XX]; any
    other [%] stays.  (Python then decodes the bytes as UTF-8 and puts
    U+FFFD for an ill-formed sequence; here the bytes are kept.) *)
Fixpoint unquote (s : string) : string :=
  match s with
  | EmptyString => EmptyString
  | String c s' =>
      if Ascii.eqb c "%" then
        match s' with
        | String h (String l rest) =>
            match hex_value h, hex_value l with
            | Some a, Some b => String (ascii_of_N (16 * a + b)) (unquote rest)
            | _, _ => String c (unquote s')
            end
        | _ => String c (unquote s')
        end
      else String c (unquote s')
  end.

(** ** The built-in [hash] of a [str]

    CPython 3.11 hashes the character buffer of the string with
    SipHash-1-3 under the process-wide secret; the result is read as a
    signed 64-bit integer and -1 is replaced by -2.  The empty string
    hashes to 0.  (Exact for text below U+0100, one byte per character.) *)

Module PyHash.
Local Open Scope Z_scope.

Definition wrap64 (x : Z) : Z := x mod 2 ^ 64.

Definition rotl (x b : Z) : Z :=
  wrap64 (Z.lor (Z.shiftl x b) (Z.shiftr x (64 - b))).

Definition State : Type := Z * Z * Z * Z.

(** [HALF_ROUND(a,b,c,d,s,t)] *)
Definition half_round (a b c d s t : Z) : State :=
  let a := wrap64 (a + b) in
  let c := wrap64 (c + d) in
  let b := Z.lxor (rotl b s) a in
  let d := Z.lxor (rotl d t) c in
  let a := rotl a 32 in
  (a, b, c, d).

(** [SINGLE_ROUND(v0,v1,v2,v3)] *)
Definition single_round (v : State) : State :=
  let '(v0, v1, v2, v3) := v in
  let '(v0, v1, v2, v3) := half_round v0 v1 v2 v3 13 16 in
  let '(v2, v1, v0, v3) := half_round v2 v1 v0 v3 17 21 in
  (v0, v1, v2, v3).

(** little-endian value of a block of bytes *)
Fixpoint le_word (bs : list Z) : Z :=
  match bs with
  | [] => 0
  | b :: bs' => b + 256 * le_word bs'
  end.

Definition absorb (v : State) (m : Z) : State :=
  let '(v0, v1, v2, v3) := v in
  let '(v0, v1, v2, v3) := single_round (v0, v1, v2, Z.lxor v3 m) in
  (Z.lxor v0 m, v1, v2, v3).

(** the [while (src_sz >= 8)] loop followed by the tail [switch] *)
Fixpoint compress (v : State) (len_tag : Z) (bs : list Z) : State :=
  match bs with
  | b0 :: b1 :: b2 :: b3 :: b4 :: b5 :: b6 :: b7 :: rest =>
      compress (absorb v (le_word [b0; b1; b2; b3; b4; b5; b6; b7])) len_tag rest
  | tail => absorb v (Z.lor len_tag (le_word tail))
  end.

Definition siphash13 (k0 k1 : Z) (bs : list Z) : Z :=
  let b := wrap64 (Z.shiftl (Z.of_nat (length bs)) 56) in
  let v := (Z.lxor k0 0x736f6d6570736575, Z.lxor k1 0x646f72616e646f6d,
            Z.lxor k0 0x6c7967656e657261, Z.lxor k1 0x7465646279746573) in
  let '(v0, v1, v2, v3) := compress v b bs in
  let v2 := Z.lxor v2 0xff in
  let '(v0, v1, v2, v3) := single_round (single_round (single_round (v0, v1, v2, v3))) in
  Z.lxor (Z.lxor v0 v1) (Z.lxor v2 v3).

Definition bytes_of (s : string) : list Z :=
  map (fun c => Z.of_N (N_of_ascii c)) (list_ascii_of_string s).

(** a [uint64_t] read as [Py_hash_t] *)
Definition signed64 (x : Z) : Z := if x <? 2 ^ 63 then x else x - 2 ^ 64.

(** [hash(s)] under the secret [(k0, k1)] *)
Definition hash (secret : Z * Z) (s : string) : Z :=
  match s with
  | EmptyString => 0
  | _ =>
      let x := signed64 (siphash13 (fst secret) (snd secret) (bytes_of s)) in
      if x =? -1 then -2 else x
  end.

End PyHash.

(** ** [filename_from_url] *)

Definition filename_from_url (env : Env) (url : string) : Exn + string :=
  match UrlParse.urlparse_path env url with
  | inl e => inl e
  | inr path =>
      let name := basename path in
      let name := unquote (Py.before "?" name) in
      let name :=
        if Py.is_empty name
        then "file_" +:+ Py.str_of_int (Z.abs (PyHash.hash (hash_secret env) url)) +:+ ".pdf"
        else name in
      let name := Py.replace "\" "_" (Py.replace "/" "_" name) in
      inr name
  end.

(** ** [pathlib] paths (POSIX flavour)

    A path is its root ([""], ["/"] or ["//"]) and the list of its
    components; [pathlib] drops empty components and ["."] when it parses
    text, which [parse] reproduces. *)

Module PosixPath.
Import Py.

Record Path := mkPath { root : string; names : list string }.

(** [s.split("/")] *)
Fixpoint split_slash (s : string) : list string :=
  match s with
  | EmptyString => [EmptyString]
  | String d s' =>
      if Ascii.eqb d "/" then EmptyString :: split_slash s'
      else match split_slash s' with
           | [] => [String d EmptyString]
           | h :: t => String d h :: t
           end
  end.

(** [sep.join(l)] *)
Fixpoint join_slash (l : list string) : string :=
  match l with
  | [] => EmptyString
  | [x] => x
  | x :: l' => x +:+ "/" +:+ join_slash l'
  end.

Definition is_slash (c : ascii) : bool := Ascii.eqb c "/".

(** [splitroot(part)]: root and the rest *)
Definition splitroot (part : string) : string * string :=
  match part with
  | String "/" _ =>
      let stripped := lstrip is_slash part in
      if (String.length part - String.length stripped =? 2)%nat
      then ("//", stripped) else ("/", stripped)
  | _ => (EmptyString, part)
  end.

Definition keep_component (x : string) : bool :=
  negb (is_empty x) && negb (String.eqb x ".").

(** [parse_parts((s,))] *)
Definition parse (s : string) : Path :=
  let '(r, rel) := splitroot s in
  mkPath r (filter (fun x => keep_component x = true) (split_slash rel)).

(** [Path(s)] *)
Definition of_str (s : string) : Path := parse s.

(** [p / s] *)
Definition joinpath (p : Path) (s : string) : Path :=
  let q := parse s in
  if is_empty (root q) then mkPath (root p) (names p ++ names q) else q.

(** [str(p)] *)
Definition to_str (p : Path) : string :=
  match root p, names p with
  | EmptyString, [] => "."
  | r, l => r +:+ join_slash l
  end.

(** [p.name] *)
Definition name (p : Path) : string := List.last (names p) EmptyString.

(** [name[:name.rfind(".")]] *)
Fixpoint before_last_dot (s : string) : string :=
  match s with
  | EmptyString => EmptyString
  | String d s' => if contains "." s' then String d (before_last_dot s') else EmptyString
  end.

(** [0 < i < len(name) - 1] for [i = name.rfind(".")] *)
Definition has_suffix (nm : string) : bool :=
  contains "." nm
  && negb (is_empty (before_last_dot nm))
  && negb (is_empty (after_last "." nm)).

(** [p.suffix] *)
Definition suffix (p : Path) : string :=
  let nm := name p in
  if has_suffix nm then "." +:+ after_last "." nm else EmptyString.

(** [p.stem] *)
Definition stem (p : Path) : string :=
  let nm := name p in
  if has_suffix nm then before_last_dot nm else nm.

Definition valid_name (nm : string) : bool :=
  negb (is_empty nm) && negb (String.eqb nm ".") && negb (contains "/" nm).

(** [p.with_name(nm)] *)
Definition with_name (p : Path) (nm : string) : Exn + Path :=
  if is_empty (name p) then
    inl (mkExn ValueError ("PosixPath('" +:+ to_str p +:+ "') has an empty name"))
  else if negb (valid_name nm) then
    inl (mkExn ValueError ("Invalid name '" +:+ nm +:+ "'"))
  else inr (mkPath (root p) (removelast (names p) ++ [nm])).

End PosixPath.
Export PosixPath(Path, mkPath).

(** ** The file system and the monad of effects

    The file system maps the text of a path to what is there.  ([".."]
    components and links are not resolved: two texts are two entries.)
    [trace] keeps every state the file system has been in, newest first,
    so that what an outside observer could have seen is part of the
    result of a run. *)

Inductive Node :=
  | Dir
  | File (content : list byte).

Record World := mkWorld {
  fs : gmap string Node;
  trace : list (gmap string Node)
}.

(** How a call ends.  [Running] is the answer of a loop that was cut off
    before it finished. *)
Inductive Res (A : Type) :=
  | Returned (a : A)
  | Raised (e : Exn)
  | Running.
Arguments Returned {A} a.
Arguments Raised {A} e.
Arguments Running {A}.

Definition M (A : Type) : Type := World -> Res A * World.

Definition ret {A} (a : A) : M A := fun w => (Returned a, w).

Definition raise {A} (e : Exn) : M A := fun w => (Raised e, w).

Definition bind {A B} (m : M A) (k : A -> M B) : M B :=
  fun w =>
    match m w with
    | (Returned a, w') => k a w'
    | (Raised e, w') => (Raised e, w')
    | (Running, w') => (Running, w')
    end.

Declare Scope py_scope.
Delimit Scope py_scope with py.
Notation "x <- m ;; k" := (bind m (fun x => k))
  (at level 100, m at next level, right associativity) : py_scope.
Notation "m ;; k" := (bind m (fun _ => k))
  (at level 100, right associativity) : py_scope.
Local Open Scope py_scope.

(** a pure call that may raise *)
Definition lift {A} (r : Exn + A) : M A :=
  match r with
  | inl e => raise e
  | inr a => ret a
  end.

(** [try: body  except Exception as e: handler(e)] *)
Definition try_except {A} (body : M A) (handler : Exn -> M A) : M A :=
  fun w =>
    match body w with
    | (Raised e, w') => handler e w'
    | r => r
    end.

(** [try: body  except: pass] *)
Definition try_pass (body : M unit) : M unit :=
  try_except body (fun _ => ret tt).

(** [with resource: body], for a resource whose [__exit__] is [close]:
    [close] runs however [body] ends, and an error of [close] is the one
    that propagates. *)
Definition with_closing {A} (close : M unit) (body : M A) : M A :=
  fun w =>
    match body w with
    | (Running, w') => (Running, w')
    | (r, w') =>
        match close w' with
        | (Returned _, w'') => (r, w'')
        | (Raised e, w'') => (Raised e, w'')
        | (Running, w'') => (Running, w'')
        end
    end.

Definition set_fs (f : gmap string Node) : M unit :=
  fun w => (Returned tt, mkWorld f (f :: trace w)).

Definition get_fs : M (gmap string Node) := fun w => (Returned (fs w), w).

(** the operating system refuses [op] when the environment says so *)
Definition syscall (env : Env) (op : Op) : M unit :=
  match fault env op with
  | Some e => raise e
  | None => ret tt
  end.

Module Fs.
Import PosixPath.

Definition os_error (what : string) (p : string) : Exn :=
  mkExn OSError (what +:+ ": '" +:+ p +:+ "'").

(** [path.exists()] *)
Definition exists_ (env : Env) (path : Path) : M bool :=
  let p := to_str path in
  syscall env (OpStat p) ;;
  f <- get_fs ;;
  ret (bool_decide (is_Some (f !! p))).

(** [open(path, "wb")]: create or truncate *)
Definition open_wb (env : Env) (path : Path) : M unit :=
  let p := to_str path in
  syscall env (OpOpen p) ;;
  f <- get_fs ;;
  match f !! p with
  | Some Dir => raise (os_error "[Errno 21] Is a directory" p)
  | _ => set_fs (<[p := File []]> f)
  end.

Definition size_at (f : gmap string Node) (p : string) : nat :=
  match f !! p with
  | Some (File c) => length c
  | _ => 0%nat
  end.

Definition append (chunk : list byte) (n : Node) : Node :=
  match n with
  | File c => File (c ++ chunk)
  | Dir => Dir
  end.

(** [f.write(chunk)] on the file opened at [path] (written through) *)
Definition write (env : Env) (path : Path) (chunk : list byte) : M unit :=
  let p := to_str path in
  f <- get_fs ;;
  syscall env (OpWrite p (size_at f p)) ;;
  set_fs (alter (append chunk) p f).

(** [f.close()] *)
Definition close (env : Env) (path : Path) : M unit :=
  syscall env (OpClose (to_str path)).

(** [src.replace(dst)]: [os.replace], one atomic step *)
Definition replace (env : Env) (src dst : Path) : M unit :=
  let s := to_str src in
  let d := to_str dst in
  syscall env (OpRename s d) ;;
  f <- get_fs ;;
  match f !! s, f !! d with
  | None, _ => raise (os_error "[Errno 2] No such file or directory" s)
  | Some (File _), Some Dir => raise (os_error "[Errno 21] Is a directory" d)
  | Some Dir, Some (File _) => raise (os_error "[Errno 20] Not a directory" d)
  | Some n, _ => set_fs (<[d := n]> (delete s f))
  end.

(** [path.unlink()] *)
Definition unlink (env : Env) (path : Path) : M unit :=
  let p := to_str path in
  syscall env (OpUnlink p) ;;
  f <- get_fs ;;
  match f !! p with
  | None => raise (os_error "[Errno 2] No such file or directory" p)
  | Some Dir => raise (os_error "[Errno 21] Is a directory" p)
  | Some (File _) => set_fs (delete p f)
  end.

End Fs.

(** ** [resolve_collision] *)

(** the name tried at round [i] of the loop: [f"{base}_{i}{suffix}"] *)
Definition candidate_name (base suffix : string) (i : Z) : string :=
  base +:+ "_" +:+ Py.str_of_int i +:+ suffix.

(** the [while True] loop, cut off after [fuel] rounds *)
Fixpoint resolve_collision_loop (env : Env) (fuel : nat) (path : Path)
    (base suffix : string) (i : Z) : M Path :=
  match fuel with
  | O => fun w => (Running, w)
  | S fuel' =>
      candidate <- lift (PosixPath.with_name path (candidate_name base suffix i)) ;;
      e <- Fs.exists_ env candidate ;;
      if negb e then ret candidate
      else resolve_collision_loop env fuel' path base suffix (i + 1)
  end.

Definition resolve_collision_fuel (env : Env) (fuel : nat) (path : Path) : M Path :=
  e <- Fs.exists_ env path ;;
  if negb e then ret path
  else
    let base := PosixPath.stem path in
    let suffix := PosixPath.suffix path in
    resolve_collision_loop env fuel path base suffix 1.

(** One more round than there are entries in the file system is always
    enough ([resolve_collision_total] below: the loop is never cut off). *)
Definition resolve_collision (env : Env) (path : Path) : M Path :=
  fun w => resolve_collision_fuel env (S (size (fs w))) path w.

(** ** The retry policy: [urllib3.util.retry.Retry] and [create_session]

    [Retry] is library code; of it, the part that the configuration of
    [create_session] exercises is written out: the counter [total], the
    status and method filters and the back-off.  The counters
    [connect], [read], [status], [other] and [redirect] keep their
    default [None] and never exhaust. *)

Record Retry := mkRetry {
  total : Z;
  backoff_factor : Q;
  status_forcelist : list Z;
  allowed_methods : list string;
  (** length of [history]: the failures so far *)
  consecutive_errors : nat
}.

Record Session := mkSession {
  max_retries : Retry;
  mounts : list string;
  user_agent : string
}.

Definition create_session_with (retries : Z) (backoff : Q) : Session :=
  let retry := mkRetry retries backoff [429; 500; 502; 503; 504] ["GET"; "HEAD"] 0 in
  mkSession retry ["http://"; "https://"] "pdf-downloader/1.0".

(** [create_session()] with its defaults [retries=5, backoff=0.5] *)
Definition create_session : Session := create_session_with 5 (1 # 2).

(** [get_session()]: the session of the calling thread, made on first
    use by [create_session()] *)
Definition get_session : Session := create_session.

Module Urllib3.

Definition RETRY_AFTER_STATUS_CODES : list Z := [413; 429; 503].
Definition DEFAULT_BACKOFF_MAX : Q := 120 # 1.

Definition _is_method_retryable (r : Retry) (method : string) : bool :=
  match allowed_methods r with
  | [] => true
  | allowed => bool_decide (Py.upper method ∈ allowed)
  end.

(** [Retry.is_retry(method, status_code, has_retry_after)], with
    [respect_retry_after_header] at its default [True] *)
Definition is_retry (r : Retry) (method : string) (status : Z) (retry_after : bool) : bool :=
  if negb (_is_method_retryable r method) then false
  else if bool_decide (status ∈ status_forcelist r) then true
  else negb (total r =? 0)%Z && retry_after
       && bool_decide (status ∈ RETRY_AFTER_STATUS_CODES).

(** [Retry.is_exhausted()]: a counter that is set and not zero is
    below zero *)
Definition is_exhausted (r : Retry) : bool := (total r <? 0)%Z.

(** [Retry.increment(...)]: the next [Retry], or [None] where the
    library raises [MaxRetryError] *)
Definition increment (r : Retry) : option Retry :=
  let r' := mkRetry (total r - 1) (backoff_factor r) (status_forcelist r)
              (allowed_methods r) (S (consecutive_errors r)) in
  if is_exhausted r' then None else Some r'.

(** [backoff_factor * (2 ** (consecutive_errors_len - 1))], at most
    [DEFAULT_BACKOFF_MAX], and nothing after a first failure *)
Definition backoff_time (factor : Q) (errors : nat) : Q :=
  if (errors <=? 1)%nat then 0%Q
  else Qmin DEFAULT_BACKOFF_MAX (factor * 2 ^ (Z.of_nat errors - 1))%Q.

(** [Retry.get_backoff_time()], in seconds *)
Definition get_backoff_time (r : Retry) : Q :=
  backoff_time (backoff_factor r) (consecutive_errors r).

(** [Retry.sleep(response)]: the seconds waited before the next attempt,
    what [Retry-After] asks for if that is not zero, else the back-off *)
Definition sleep (r : Retry) (response : option Response) : Q :=
  match response with
  | Some resp =>
      match retry_after resp with
      | Some s => if Qeq_bool s 0 then get_backoff_time r else s
      | None => get_backoff_time r
      end
  | None => get_backoff_time r
  end.

(** what [requests] raises when [urllib3] gives up (text abridged) *)
Definition max_retry_error (url cause : string) : Exn :=
  mkExn RequestException
    ("Max retries exceeded with url: " +:+ url +:+ " (Caused by " +:+ cause +:+ ")").

Definition too_many (status : Z) : string :=
  "ResponseError('too many " +:+ Py.str_of_int status +:+ " error responses')".

(** [HTTPConnectionPool.urlopen], which calls itself to try again;
    [n] counts the attempts already made, [fuel] cuts the recursion.
    The result comes with the number of attempts made and the pauses
    taken (in seconds), oldest first. *)
Fixpoint urlopen (env : Env) (fuel : nat) (method url : string) (retries : Retry)
    (n : nat) (pauses : list Q) : Res Response * nat * list Q :=
  match fuel with
  | O => (Running, n, pauses)
  | S fuel' =>
      let again (response : option Response) (cause : string) :=
        match increment retries with
        | None => (Raised (max_retry_error url cause), S n, pauses)
        | Some retries' =>
            urlopen env fuel' method url retries' (S n)
              (pauses ++ [sleep retries' response])
        end in
      match server env url n with
      | Fatal e => (Raised e, S n, pauses)
      | ConnectFailed e => again None (message e)
      | ReadFailed e =>
          if _is_method_retryable retries method
          then again None (message e)
          else (Raised e, S n, pauses)
      | Replied response =>
          if is_retry retries method (status_code response) (has_retry_after response)
          then again (Some response) (too_many (status_code response))
          else (Returned response, S n, pauses)
      end
  end.

End Urllib3.

(** [session.get(url, stream=True, timeout=timeout)] for a URL that is
    not redirected.  The recursion of [urlopen] is given one round more
    than [total] allows retries ([session_get_total] below: it never
    runs out). *)
Definition session_get_run (env : Env) (session : Session) (url : string)
    : Res Response * nat * list Q :=
  let retry := max_retries session in
  Urllib3.urlopen env (S (Z.to_nat (total retry))) "GET" url retry 0 [].

Definition session_get (env : Env) (session : Session) (url : string) : M Response :=
  fun w => (fst (fst (session_get_run env session url)), w).

(** [r.raise_for_status()] *)
Definition raise_for_status (r : Response) : M unit :=
  let msg kind_ :=
    Py.str_of_int (status_code r) +:+ " " +:+ kind_ +:+ " Error: " +:+ reason r
    +:+ " for url: " +:+ resp_url r in
  if (400 <=? status_code r)%Z && (status_code r <? 500)%Z
  then raise (mkExn RequestException (msg "Client"))
  else if (500 <=? status_code r)%Z && (status_code r <? 600)%Z
  then raise (mkExn RequestException (msg "Server"))
  else ret tt.

(** ** [download_one] *)

(** the triple [(url, ok, info)] *)
Definition Outcome : Type := string * bool * string.

(** [for chunk in r.iter_content(chunk_size=8192): if chunk: f.write(chunk)] *)
Fixpoint write_chunks (env : Env) (temp : Path) (cs : list (list byte))
    (stream_end : option Exn) : M unit :=
  match cs with
  | [] => match stream_end with Some e => raise e | None => ret tt end
  | chunk :: cs' =>
      (match chunk with
       | [] => ret tt
       | _ => Fs.write env temp chunk
       end) ;;
      write_chunks env temp cs' stream_end
  end.

(** the body of the [try] (lines 69 to 77); leaving the outer [with]
    closes the connection, which changes nothing here *)
Definition fetch_and_publish (env : Env) (session : Session) (url : string)
    (dest temp : Path) : M Outcome :=
  r <- session_get env session url ;;
  (raise_for_status r ;;
   Fs.open_wb env temp ;;
   with_closing (Fs.close env temp)
     (write_chunks env temp (chunks r) (stream_error r))) ;;
  Fs.replace env temp dest ;;
  ret (url, true, PosixPath.to_str dest).

(** the [except Exception as e] handler (lines 79 to 85) *)
Definition cleanup (env : Env) (url : string) (temp : Path) (e : Exn) : M Outcome :=
  try_pass (there <- Fs.exists_ env temp ;;
            if there then Fs.unlink env temp else ret tt) ;;
  ret (url, false, message e).

(** lines 64 to 67: the destination and the temporary path *)
Definition plan_paths (env : Env) (url dest_dir : string) : M (Path * Path) :=
  name <- lift (filename_from_url env url) ;;
  let dest := PosixPath.joinpath (PosixPath.of_str dest_dir) name in
  dest <- resolve_collision env dest ;;
  temp <- lift (PosixPath.with_name dest (PosixPath.name dest +:+ ".part")) ;;
  ret (dest, temp).

(** [download_one(url, dest_dir, timeout)]; the time limits are not
    modelled, a transfer they cut short is a failed attempt of [server] *)
Definition download_one (env : Env) (url dest_dir : string) : M Outcome :=
  let session := get_session in
  paths <- plan_paths env url dest_dir ;;
  let '(dest, temp) := paths in
  try_except (fetch_and_publish env session url dest temp) (cleanup env url temp).

(** ** [main], once the list of URLs is read (lines 106 to 129) *)

(** line 110 *)
Definition effective_workers (args_workers : Z) (urls : list string) : Z :=
  Z.max 1 (Z.min args_workers (Z.of_nat (length urls))).

(** How the tasks of the pool ended, in submission order.  Each task
    runs [download_one] to its end before the next starts: the schedule
    of a pool of one worker.  (With more workers the calls overlap in
    time; how their file operations interleave is not modelled.) *)
Fixpoint run_pool (env : Env) (dest_dir : string) (urls : list string)
    : World -> list (Res Outcome) * World :=
  fun w =>
    match urls with
    | [] => ([], w)
    | url :: urls' =>
        let '(r, w') := download_one env url dest_dir w in
        let '(rs, w'') := run_pool env dest_dir urls' w' in
        (r :: rs, w'')
    end.

Inductive Ending :=
  | Finished                 (* reached the summary *)
  | Crashed (e : Exn)        (* [fut.result()] raised *)
  | Blocked.                 (* [fut.result()] never answered *)

Record Report := mkReport {
  workers : Z;
  (** the outcomes reported, one per line printed, in order *)
  reported : list Outcome;
  (** [results]: the failures kept for the summary *)
  results : list (string * string);
  ending : Ending
}.

(** the loop over [as_completed(futures)]; [order] is the order in which
    the futures are handed out *)
Fixpoint collect (futures : list (Res Outcome)) (order : list nat)
    (reported : list Outcome) (results : list (string * string))
    : list Outcome * list (string * string) * Ending :=
  match order with
  | [] => (reported, results, Finished)
  | i :: order' =>
      match futures !! i with
      | Some (Returned (url, ok, info)) =>
          if ok : bool
          then collect futures order' (reported ++ [(url, ok, info)]) results
          else collect futures order' (reported ++ [(url, ok, info)])
                 (results ++ [(url, info)])
      | Some (Raised e) => (reported, results, Crashed e)
      | Some Running => (reported, results, Blocked)
      | None => collect futures order' reported results
      end
  end.

Definition main (env : Env) (args_workers : Z) (dest_dir : string)
    (urls : list string) (order : list nat) (w : World) : option Report * World :=
  match urls with
  | [] => (None, w)         (* "Nenhuma URL encontrada no arquivo." *)
  | _ =>
      let workers := effective_workers args_workers urls in
      let '(futures, w') := run_pool env dest_dir urls w in
      let '(reported, results, ending) := collect futures order [] [] in
      (Some (mkReport workers reported results ending), w')
  end.

(** ** Vocabulary of the properties *)

(** free of both path separators *)
Definition separator_free (s : string) : Prop :=
  Py.contains "/" s = false /\ Py.contains "\" s = false.

(** [child] is directly under [parent] and called [nm] *)
Definition child_of (parent : Path) (nm : string) (child : Path) : Prop :=
  child = mkPath (PosixPath.root parent) (PosixPath.names parent ++ [nm]).

(** every component of the path is a file name: not empty, not ".",
    without "/" (what [pathlib] guarantees of the paths it builds) *)
Definition well_formed (p : Path) : bool :=
  forallb PosixPath.valid_name (PosixPath.names p).

(** [path] with its last component replaced by [nm] *)
Definition sibling (path : Path) (nm : string) : Path :=
  mkPath (PosixPath.root path) (removelast (PosixPath.names path) ++ [nm]).

(** the path tried at round [i] of the loop of [resolve_collision] *)
Definition candidate (path : Path) (i : Z) : Path :=
  sibling path (candidate_name (PosixPath.stem path) (PosixPath.suffix path) i).

(** the text of the directory part of a path: each component followed
    by "/" *)
Fixpoint dir_prefix (l : list string) : string :=
  match l with
  | [] => ""
  | x :: l' => x +:+ "/" +:+ dir_prefix l'
  end.

(** the failures after which [urlopen] tries again, under policy [r] *)
Definition retried (r : Retry) (a : Attempt) : bool :=
  match a with
  | ConnectFailed _ => true
  | ReadFailed _ => Urllib3._is_method_retryable r "GET"
  | Fatal _ => false
  | Replied resp =>
      Urllib3._is_method_retryable r "GET"
      && (bool_decide (status_code resp ∈ status_forcelist r)
          || has_retry_after resp
             && bool_decide (status_code resp ∈ Urllib3.RETRY_AFTER_STATUS_CODES))
  end.

(** the seconds waited after failure [a], the [errors]-th in a row *)
Definition pause_for (r : Retry) (errors : nat) (a : Attempt) : Q :=
  match a with
  | Replied resp =>
      match retry_after resp with
      | Some s => if Qeq_bool s 0 then Urllib3.backoff_time (backoff_factor r) errors else s
      | None => Urllib3.backoff_time (backoff_factor r) errors
      end
  | _ => Urllib3.backoff_time (backoff_factor r) errors
  end.

(** what a run of [urlopen] from attempt [n] with policy [r] ends in *)
Definition urlopen_post (env : Env) (url : string) (r : Retry) (n : nat)
    (pauses : list Q) (out : Res Response * nat * list Q) : Prop :=
  let '(res, n', ps) := out in
  res <> Running
  /\ (n < n' <= n + Z.to_nat (total r) + 1)%nat
  /\ match res with
     | Returned resp => server env url (n' - 1) = Replied resp
     | _ => True
     end
  /\ exists new,
       ps = pauses ++ new
       /\ length new = (n' - n - 1)%nat
       /\ forall k, (n <= k)%nat -> (S k < n')%nat ->
            retried r (server env url k) = true
            /\ new !! (k - n)%nat
               = Some (pause_for r (consecutive_errors r + S (k - n)) (server env url k)).

(** seconds of back-off after the [k+1]-th failure in a row under
    [create_session]: 0, 1, 2, 4, 8 *)
Definition backoff_seconds (k : nat) : Q :=
  match k with
  | O => 0%Q
  | _ => ((1 # 2) * 2 ^ Z.of_nat k)%Q
  end.

(** From [w] to [w'] the file system went through the states [new]
    (newest first), all of which agree with [fs w] away from the path
    [t]. *)
Definition only_at (t : string) (w w' : World) : Prop :=
  exists new,
    trace w' = new ++ trace w
    /\ Forall (fun s : gmap string Node => forall k, k <> t -> s !! k = fs w !! k) new
    /\ fs w' = List.hd (fs w) new.

(** [content] is the whole body of the reply that [session.get(url)]
    ends in, a reply that is no HTTP error and was received to its end *)
Definition full_body (env : Env) (url : string) (content : list byte) : Prop :=
  exists resp,
    fst (fst (session_get_run env get_session url)) = Returned resp
    /\ ~ (400 <= status_code resp < 600)
    /\ stream_error resp = None
    /\ content = concat (chunks resp).

(** in the state [s], nothing is at [d], or a file with the whole body *)
Definition absent_or_complete (env : Env) (url d : string) (s : gmap string Node) : Prop :=
  s !! d = None
  \/ exists content, s !! d = Some (File content) /\ full_body env url content.

(** ** Sample environments *)

(** the hash secret under PYTHONHASHSEED=0 and under PYTHONHASHSEED=1 *)
Definition secret_seed0 : Z * Z := (0, 0).
Definition secret_seed1 : Z * Z := (0xaed66ce184be2329, 0xebe9bbf1f1499052).

(** an environment without system-call failures *)
Definition calm_env (secret : Z * Z) (srv : string -> nat -> Attempt) : Env :=
  mkEnv secret (fun _ => None) (fun _ => None) srv (fun _ => None).

Definition no_server : string -> nat -> Attempt :=
  fun _ _ => Fatal (mkExn RequestException "no server").

(** a server that answers 503 to every attempt *)
Definition unavailable : Response :=
  mkResponse 503 "Service Unavailable" None "http://host/a.pdf" [] None.
Definition always_503 : string -> nat -> Attempt := fun _ _ => Replied unavailable.

(** a server that sends the PDF at once, in three chunks, one of them
    empty *)
Definition pdf_body : Response :=
  mkResponse 200 "OK" None "http://host/a.pdf"
    [["%"; "P"]%byte; []; ["D"; "F"]%byte] None.
Definition pdf_server : string -> nat -> Attempt := fun _ _ => Replied pdf_body.

(** a server that answers 413 with [Retry-After: 3], then sends the PDF *)
Definition too_large : Response :=
  mkResponse 413 "Payload Too Large" (Some (3 # 1)) "http://host/a.pdf" [] None.
Definition busy_once : string -> nat -> Attempt :=
  fun _ n => match n with O => Replied too_large | _ => Replied pdf_body end.

(** a server whose reply breaks off after the first chunk *)
Definition incomplete_read : Exn :=
  mkExn RequestException "Connection broken: IncompleteRead".
Definition cut_body : Response :=
  mkResponse 200 "OK" None "http://host/a.pdf" [["%"; "P"]%byte] (Some incomplete_read).
Definition cut_server : string -> nat -> Attempt := fun _ _ => Replied cut_body.

(** a disk that turns read-only once two bytes are written: the next
    write fails, and so does the removal of the file *)
Definition read_only_fs : Exn := mkExn OSError "[Errno 30] Read-only file system".
Definition failing_disk : Op -> option Exn :=
  fun op =>
    match op with
    | OpWrite _ 2 => Some read_only_fs
    | OpUnlink _ => Some read_only_fs
    | _ => None
    end.
Definition failing_disk_env : Env :=
  mkEnv secret_seed0 (fun _ => None) (fun _ => None) pdf_server failing_disk.

(** an output directory, empty *)
Definition empty_pdfs : World := mkWorld {[ "pdfs" := Dir ]} [].

(** an output directory in which two names are taken *)
Definition crowded_pdfs : World :=
  mkWorld {[ "pdfs" := Dir; "pdfs/a.pdf" := File []; "pdfs/a_1.pdf" := File [] ]} [].

(** ** Reading the list of URLs (lines 103 and 104)

    The file is read as text with universal newlines: "\n", "\r" and
    "\r\n" each end a line and reach the program as "\n".  [str.strip]
    removes white space as [str.isspace] defines it; on text held as
    UTF-8 these are ten single bytes, two two-byte and seventeen
    three-byte sequences.  The text is the content of the file when that
    is well-formed UTF-8 (on other content [open] or the iteration raises
    [UnicodeDecodeError], which is not modelled); a byte-order mark is
    not removed and stays in front of the first line. *)

Module Text.
Import Py.

(** U+0009 to U+000D, U+001C to U+0020 *)
Definition space1 (c : ascii) : bool :=
  let n := code c in
  ((9 <=? n) && (n <=? 13) || (28 <=? n) && (n <=? 32))%N.

(** U+0085 and U+00A0 *)
Definition space2 (c d : ascii) : bool :=
  ((code c =? 194) && ((code d =? 133) || (code d =? 160)))%N.

(** U+1680, U+2000 to U+200A, U+2028, U+2029, U+202F, U+205F, U+3000 *)
Definition space3 (c d e : ascii) : bool :=
  let '(a, b, n) := (code c, code d, code e) in
  ((a =? 225) && (b =? 154) && (n =? 128)
   || (a =? 226) && (b =? 128)
      && ((128 <=? n) && (n <=? 138) || (n =? 168) || (n =? 169) || (n =? 175))
   || (a =? 226) && (b =? 129) && (n =? 159)
   || (a =? 227) && (b =? 128) && (n =? 128))%N.

(** [s.lstrip()] *)
Fixpoint lstrip_ws (s : string) : string :=
  match s with
  | EmptyString => EmptyString
  | String c s1 =>
      if space1 c then lstrip_ws s1
      else match s1 with
           | String d s2 =>
               if space2 c d then lstrip_ws s2
               else match s2 with
                    | String e s3 => if space3 c d e then lstrip_ws s3 else s
                    | EmptyString => s
                    end
           | EmptyString => s
           end
  end.

(** [s.rstrip()]: what is left of [s] once its white tail is cut, the
    tail being the longest suffix that [lstrip] empties *)
Fixpoint rstrip_ws (s : string) : string :=
  match s with
  | EmptyString => EmptyString
  | String c s' => if is_empty (lstrip_ws s) then EmptyString else String c (rstrip_ws s')
  end.

(** [s.strip()] *)
Definition strip (s : string) : string := rstrip_ws (lstrip_ws s).

Definition is_break (c : ascii) : bool := Ascii.eqb c "010" || Ascii.eqb c "013".

(** [list(f)] for the text of the file: the lines, each with the "\n"
    that ends it *)
Fixpoint readlines (s : string) : list string :=
  match s with
  | EmptyString => []
  | String c s' =>
      if Ascii.eqb c "010" then String "010" EmptyString :: readlines s'
      else if Ascii.eqb c "013" then
        String "010" EmptyString ::
          match s' with
          | String d s'' => if Ascii.eqb d "010" then readlines s'' else readlines s'
          | EmptyString => []
          end
      else match readlines s' with
           | [] => [String c EmptyString]
           | l :: ls => String c l :: ls
           end
  end.

(** [[line.strip() for line in lines if line.strip()]] *)
Definition stripped (lines : list string) : list string :=
  filter (fun u => is_empty u = false) (map strip lines).

(** line 104, for the text of the file *)
Definition load_urls (text : string) : list string := stripped (readlines text).

(** a line that [load_urls] gives back as it is: not empty, nothing to
    strip, no line break inside *)
Definition clean_line (u : string) : Prop :=
  u <> EmptyString /\ strip u = u
  /\ contains "010" u = false /\ contains "013" u = false.

(** a list of URLs written out one per line *)
Fixpoint unlines (l : list string) : string :=
  match l with
  | [] => EmptyString
  | u :: l' => u +:+ String "010" (unlines l')
  end.

(** the text cut at every "\n" and every "\r" *)
Fixpoint split_breaks (s : string) : list string :=
  match s with
  | EmptyString => [EmptyString]
  | String c s' =>
      if is_break c then EmptyString :: split_breaks s'
      else match split_breaks s' with
           | [] => [String c EmptyString]
           | p :: ps => String c p :: ps
           end
  end.

End Text.

(** ** [get_session] and the thread-local store (lines 18 and 34 to 37)

    [threading.local()] keeps one set of attributes per thread; a
    thread is named by a number for as long as it lives.  A session
    object is told apart by the rank of the [create_session()] call that
    made it. *)

Record SessionObject := mkSessionObject {
  session_rank : nat;
  session_config : Session
}.

Record ThreadLocal := mkThreadLocal {
  (** how many times [create_session()] has been called *)
  sessions_created : nat;
  (** [thread_local.session] of each thread that has set it *)
  session_of : gmap nat SessionObject
}.

(** [get_session()] called by thread [tid] *)
Definition get_session_in (tid : nat) (tl : ThreadLocal) : SessionObject * ThreadLocal :=
  match session_of tl !! tid with
  | Some s => (s, tl)
  | None =>
      let s := mkSessionObject (sessions_created tl) create_session in
      (s, mkThreadLocal (S (sessions_created tl)) (<[tid := s]> (session_of tl)))
  end.

(** calls of [get_session()] one after the other, by the threads [tids] *)
Fixpoint get_session_calls (tids : list nat) (tl : ThreadLocal)
    : list SessionObject * ThreadLocal :=
  match tids with
  | [] => ([], tl)
  | tid :: tids' =>
      let '(s, tl') := get_session_in tid tl in
      let '(ss, tl'') := get_session_calls tids' tl' in
      (s :: ss, tl'')
  end.

(** the interpreter at start: no session made, no attribute set *)
Definition no_sessions : ThreadLocal := mkThreadLocal 0 ∅.

(** what calls of [get_session()] keep true of the store: every session
    in it was made by [create_session()], and no two threads hold the
    same one *)
Definition consistent (tl : ThreadLocal) : Prop :=
  size (session_of tl) = sessions_created tl
  /\ (forall tid s, session_of tl !! tid = Some s ->
        (session_rank s < sessions_created tl)%nat /\ session_config s = create_session)
  /\ (forall t1 t2 s1 s2,
        session_of tl !! t1 = Some s1 -> session_of tl !! t2 = Some s2 ->
        session_rank s1 = session_rank s2 -> t1 = t2).

(** ** More of the vocabulary and of the sample environments *)

(** the failed outcomes of a list, as [results] keeps them *)
Definition failures (l : list Outcome) : list (string * string) :=
  omap (fun o : Outcome =>
          let '(url, ok, info) := o in
          if ok : bool then None else Some (url, info)) l.

(** the outcome that future [i] holds, if the task returned one *)
Definition outcome_of (futures : list (Res Outcome)) (i : nat) : option Outcome :=
  match futures !! i with
  | Some (Returned o) => Some o
  | _ => None
  end.

(** future [i] holds an outcome *)
Definition returned (futures : list (Res Outcome)) (i : nat) : Prop :=
  is_Some (outcome_of futures i).

(** the URL of an outcome *)
Definition outcome_url (o : Outcome) : string := fst (fst o).

(** a server that does not have the document *)
Definition not_found : Response :=
  mkResponse 404 "Not Found" None "http://host/a.pdf" [] None.
Definition server_404 : string -> nat -> Attempt := fun _ _ => Replied not_found.

(** the working directory, with one file in it *)
Definition crowded_here : World :=
  mkWorld {[ "." := Dir; "a.pdf" := File [] ]} [].

(** a server with two documents: four bytes at the URL that ends in
    ".part", the PDF everywhere else *)
Definition four_bytes : Response :=
  mkResponse 200 "OK" None "http://host/a.pdf.part" [["1"; "1"; "1"; "1"]%byte] None.
Definition two_documents : string -> nat -> Attempt :=
  fun url _ =>
    if String.eqb url "http://host/a.pdf.part" then Replied four_bytes
    else Replied pdf_body.

(** what was at the path [p] in each state the file system has been in,
    oldest first *)
Definition history (p : string) (w : World) : list (option Node) :=
  (fun s : gmap string Node => s !! p) <$> reverse (trace w).

(** an output directory with a file left at a temporary path *)
Definition stale_pdfs : World :=
  mkWorld {[ "pdfs" := Dir; "pdfs/a.pdf.part" := File ["o"; "l"; "d"]%byte ]} [].

(** a file system that refuses names of more than 255 bytes *)
Fixpoint repeat_char (c : ascii) (n : nat) : string :=
  match n with
  | O => EmptyString
  | S n' => String c (repeat_char c n')
  end.
Definition long_name : string := repeat_char "a" 300 +:+ ".pdf".
Definition name_too_long (p : string) : Exn :=
  Fs.os_error "[Errno 36] File name too long" p.
Definition short_names_only : Op -> option Exn :=
  fun op =>
    match op with
    | OpStat p =>
        if (255 <? String.length (basename p))%nat then Some (name_too_long p) else None
    | _ => None
    end.
Definition short_names_env : Env :=
  mkEnv secret_seed0 (fun _ => None) (fun _ => None) pdf_server short_names_only.

(** * Properties *)

#[local] Arguments Ascii.eqb : simpl never.
#[local] Arguments String.eqb : simpl never.

(** ** Strings *)

Section StringFacts.
Import Py.

Lemma replace_empty a b s : replace a b s = "" -> s = "".
Proof. destruct s; [done | discriminate]. Qed.

Lemma contains_replace_same a b s : a <> b -> contains a (replace a b s) = false.
Proof.
  intros Hab. induction s as [|d s IH]; [done|]. simpl.
  destruct (Ascii.eqb a d) eqn:Had.
  - apply Ascii.eqb_neq in Hab. by rewrite Hab.
  - by rewrite Had.
Qed.

Lemma contains_replace_other c a b s :
  c <> b -> contains c s = false -> contains c (replace a b s) = false.
Proof.
  intros Hcb. induction s as [|d s IH]; [done|]. simpl.
  destruct (Ascii.eqb c d) eqn:Hcd; [done|]. intros Hs.
  destruct (Ascii.eqb a d).
  - apply Ascii.eqb_neq in Hcb. rewrite Hcb. auto.
  - rewrite Hcd. auto.
Qed.

Lemma replace_absent a b s : contains a s = false -> replace a b s = s.
Proof.
  induction s as [|d s IH]; [done|]. simpl.
  destruct (Ascii.eqb a d); [done|]. intros Hs. by rewrite IH.
Qed.

Lemma contains_app c s t : contains c (s +:+ t) = contains c s || contains c t.
Proof.
  induction s as [|d s IH]; [done|].
  change (String d s +:+ t) with (String d (s +:+ t)). simpl.
  by destruct (Ascii.eqb c d).
Qed.

Lemma str_length_app s t : String.length (s +:+ t) = (String.length s + String.length t)%nat.
Proof.
  induction s as [|d s IH]; [done|].
  change (String d s +:+ t) with (String d (s +:+ t)). simpl. by rewrite IH.
Qed.

Lemma str_app_inv_tail s1 s2 t : s1 +:+ t = s2 +:+ t -> s1 = s2.
Proof.
  revert s2. induction s1 as [|c s1 IH]; intros [|d s2] H.
  - done.
  - apply (f_equal String.length) in H. rewrite !str_length_app in H. simpl in H. lia.
  - apply (f_equal String.length) in H. rewrite !str_length_app in H. simpl in H. lia.
  - change (String c s1 +:+ t) with (String c (s1 +:+ t)) in H.
    change (String d s2 +:+ t) with (String d (s2 +:+ t)) in H.
    injection H as -> H. f_equal. by apply IH.
Qed.

Lemma str_app_assoc s t u : (s +:+ t) +:+ u = s +:+ (t +:+ u).
Proof.
  induction s as [|d s IH]; [done|].
  change (String d s +:+ t) with (String d (s +:+ t)).
  change (String d (s +:+ t) +:+ u) with (String d ((s +:+ t) +:+ u)).
  change (String d s +:+ (t +:+ u)) with (String d (s +:+ (t +:+ u))).
  by rewrite IH.
Qed.

(** the decimal digits of a natural number contain neither separator *)
Lemma pretty_N_go_clean c x s :
  is_digit c = false -> contains c s = false -> contains c (pretty_N_go x s) = false.
Proof.
  intros Hc. revert s. induction (N.lt_wf_0 x) as [x _ IH]; intros s Hs.
  assert (x = 0 \/ 0 < x)%N as [->|Hx] by lia; [by rewrite pretty_N_go_0|].
  rewrite pretty_N_go_step by done. apply IH; [by apply N.div_lt|].
  simpl. destruct (Ascii.eqb c _) eqn:E; [|done].
  apply Ascii.eqb_eq in E. subst c. exfalso.
  unfold pretty_N_char in Hc. by repeat case_match.
Qed.

Lemma str_of_nonneg_clean c n :
  is_digit c = false -> 0 <= n -> contains c (str_of_int n) = false.
Proof.
  intros Hc Hn. unfold str_of_int, pretty, pretty_Z.
  destruct n as [|q|q]; [| |lia].
  - simpl. destruct (Ascii.eqb c "0") eqn:E; [|done].
    apply Ascii.eqb_eq in E. by subst c.
  - unfold pretty, pretty_positive, pretty, pretty_N.
    case_decide; [done|]. by apply pretty_N_go_clean.
Qed.

End StringFacts.

(** ** [filename_from_url] *)

Section NameFacts.
Import Py PosixPath.

Lemma split_slash_leaf nm : contains "/" nm = false -> split_slash nm = [nm].
Proof.
  induction nm as [|d nm IH]; [done|]. simpl.
  rewrite (Ascii.eqb_sym d "/").
  destruct (Ascii.eqb "/" d); [done|]. intros H. by rewrite IH.
Qed.

Lemma splitroot_leaf nm : contains "/" nm = false -> splitroot nm = ("", nm).
Proof.
  destruct nm as [|c nm]; [done|].
  destruct c as [[] [] [] [] [] [] [] []]; done.
Qed.

Lemma parse_leaf nm : valid_name nm = true -> parse nm = mkPath "" [nm].
Proof.
  unfold valid_name. intros H.
  apply andb_prop in H as [H Hslash]. apply negb_true_iff in Hslash.
  unfold parse. rewrite splitroot_leaf, split_slash_leaf by done.
  by rewrite filter_cons_True, filter_nil.
Qed.

Lemma joinpath_leaf p nm : valid_name nm = true -> child_of p nm (joinpath p nm).
Proof. intros H. unfold joinpath, child_of. by rewrite parse_leaf. Qed.

Lemma valid_name_intro nm :
  nm <> "" -> nm <> "." -> contains "/" nm = false -> valid_name nm = true.
Proof.
  intros H1 H2 H3. unfold valid_name. rewrite H3.
  apply String.eqb_neq in H2. rewrite H2.
  by destruct nm.
Qed.

Lemma fallback_clean c n :
  is_digit c = false -> contains c "file_.pdf" = false ->
  contains c ("file_" +:+ str_of_int (Z.abs n) +:+ ".pdf") = false.
Proof.
  intros Hd Hc. rewrite !contains_app.
  rewrite (str_of_nonneg_clean c (Z.abs n) Hd) by lia.
  change "file_.pdf" with ("file_" +:+ ".pdf") in Hc.
  rewrite contains_app in Hc. apply orb_false_elim in Hc as [-> ->]. done.
Qed.

End NameFacts.

(** C8 (as amended).  Whenever [filename_from_url] returns, the name is
    not empty and contains neither "/" nor "\"; and unless that name is
    ".", joining it to any directory gives a path directly under that
    directory. *)
Theorem filename_from_url_leaf (env : Env) (url nm : string) :
  filename_from_url env url = inr nm ->
  nm <> "" /\ separator_free nm /\
  (nm <> "." ->
   forall dest_dir : string,
     child_of (PosixPath.of_str dest_dir) nm
       (PosixPath.joinpath (PosixPath.of_str dest_dir) nm)).
Proof.
  unfold filename_from_url.
  destruct (UrlParse.urlparse_path env url) as [e|path]; [discriminate|].
  set (raw := unquote _).
  set (name0 := if Py.is_empty raw then _ else raw).
  intros [= <-].
  assert (Hne : name0 <> "").
  { subst name0. destruct raw; [discriminate | done]. }
  assert (H1 : Py.replace "\" "_" (Py.replace "/" "_" name0) <> "").
  { intros H. by do 2 apply replace_empty in H. }
  assert (H2 : Py.contains "/" (Py.replace "\" "_" (Py.replace "/" "_" name0)) = false).
  { apply contains_replace_other; [done|]. by apply contains_replace_same. }
  split; [done|]. split.
  - split; [done|]. by apply contains_replace_same.
  - intros Hdot dest_dir. apply joinpath_leaf. by apply valid_name_intro.
Qed.

Lemma filename_from_url_leaf_witness :
  "a_b.pdf" <> "" /\ separator_free "a_b.pdf" /\
  ("a_b.pdf" <> "." ->
   forall dest_dir : string,
     child_of (PosixPath.of_str dest_dir) "a_b.pdf"
       (PosixPath.joinpath (PosixPath.of_str dest_dir) "a_b.pdf")).
Proof.
  apply (filename_from_url_leaf (calm_env secret_seed0 no_server)
           "http://host/docs/a%2Fb.pdf?download=1" "a_b.pdf").
  vm_compute. reflexivity.
Defined.

(** C8, counterexample.  On "http://[" [urlparse] raises [ValueError],
    so no name is returned; and on "http://host/." the name returned is
    ".", which joined to the directory "pdfs" is "pdfs" itself, not a
    path under it: the download then lands in "pdfs_1", beside the
    destination directory. *)
Lemma filename_from_url_not_always_a_leaf :
  filename_from_url (calm_env secret_seed0 no_server) "http://["
    = inl (mkExn ValueError "Invalid IPv6 URL")
  /\ filename_from_url (calm_env secret_seed0 no_server) "http://host/." = inr "."
  /\ PosixPath.to_str (PosixPath.joinpath (PosixPath.of_str "pdfs") ".") = "pdfs"
  /\ fst (download_one (calm_env secret_seed0 pdf_server) "http://host/." "pdfs" empty_pdfs)
     = Returned ("http://host/.", true, "pdfs_1").
Proof. repeat split; vm_compute; reflexivity. Qed.

(** C9 (as amended).  When the last segment of the URL's path is empty,
    the name is "file_", the decimal digits of [abs(hash(url))] and
    ".pdf", where [hash] is the interpreter's string hash under the
    secret of the running process: the name depends on the URL and on
    that secret only, so two evaluations under one secret agree. *)
Theorem fallback_name_from_hash (env : Env) (url path : string) :
  UrlParse.urlparse_path env url = inr path ->
  basename path = "" ->
  filename_from_url env url
    = inr ("file_" +:+ Py.str_of_int (Z.abs (PyHash.hash (hash_secret env) url)) +:+ ".pdf")
  /\ forall env' path',
       hash_secret env' = hash_secret env ->
       UrlParse.urlparse_path env' url = inr path' ->
       basename path' = "" ->
       filename_from_url env' url = filename_from_url env url.
Proof.
  assert (Hgen : forall en pa, UrlParse.urlparse_path en url = inr pa -> basename pa = "" ->
    filename_from_url en url
      = inr ("file_" +:+ Py.str_of_int (Z.abs (PyHash.hash (hash_secret en) url)) +:+ ".pdf")).
  { intros en pa Hp Hb. unfold filename_from_url. rewrite Hp, Hb.
    cbn [Py.before unquote Py.is_empty].
    rewrite (replace_absent "/"), (replace_absent "\"); [done|..];
      by apply fallback_clean. }
  intros Hp Hb. split; [by eapply Hgen|].
  intros env' path' Hs Hp' Hb'.
  rewrite (Hgen env path Hp Hb), (Hgen env' path' Hp' Hb'). by rewrite Hs.
Qed.

Lemma fallback_name_from_hash_witness :
  filename_from_url (calm_env secret_seed0 no_server) "http://example.com/"
    = inr "file_5964957226647800634.pdf".
Proof.
  destruct (fallback_name_from_hash (calm_env secret_seed0 no_server)
              "http://example.com/" "/") as [H _];
    [vm_compute; reflexivity | vm_compute; reflexivity |].
  rewrite H. vm_compute. reflexivity.
Defined.

(** C9, counterexample.  The same URL gets two different fallback names
    under two hash secrets (those of PYTHONHASHSEED=0 and =1): the hash
    is not stable from one process to the next. *)
Lemma fallback_name_depends_on_hash_secret :
  filename_from_url (calm_env secret_seed0 no_server) "http://example.com/"
    = inr "file_5964957226647800634.pdf"
  /\ filename_from_url (calm_env secret_seed1 no_server) "http://example.com/"
    = inr "file_4159841550382544098.pdf".
Proof. split; vm_compute; reflexivity. Qed.

(** ** The worker count *)

(** C6.  For a non-empty list of requests, [main] runs the pool with
    [max(1, min(W, number of requests))] workers, which is at least one
    and at most the number of requests. *)
Theorem effective_workers_spec (env : Env) (W : Z) (dest_dir : string)
    (urls : list string) (order : list nat) (w : World) :
  urls <> [] ->
  exists report,
    fst (main env W dest_dir urls order w) = Some report
    /\ workers report = Z.max 1 (Z.min W (Z.of_nat (length urls)))
    /\ 1 <= workers report <= Z.of_nat (length urls).
Proof.
  intros Hne. unfold main.
  destruct urls as [|u us]; [done|].
  destruct (run_pool env dest_dir (u :: us) w) as [futures w'].
  destruct (collect futures order [] []) as [[rep res] en].
  eexists. split; [reflexivity|]. simpl workers. unfold effective_workers.
  split; [done|]. simpl length. lia.
Qed.

Lemma effective_workers_spec_witness :
  exists report,
    fst (main (calm_env secret_seed0 no_server) 10 "pdfs"
           ["http://host/a.pdf"; "http://host/b.pdf"] [0%nat; 1%nat] (mkWorld ∅ []))
      = Some report
    /\ workers report = Z.max 1 (Z.min 10 (Z.of_nat 2))
    /\ 1 <= workers report <= Z.of_nat 2.
Proof.
  apply (effective_workers_spec (calm_env secret_seed0 no_server) 10 "pdfs"
           ["http://host/a.pdf"; "http://host/b.pdf"]).
  discriminate.
Defined.

(** ** [resolve_collision] *)

Section CollisionFacts.
Import Py PosixPath.

Lemma contains_before_last_dot c s :
  contains c s = false -> contains c (before_last_dot s) = false.
Proof.
  induction s as [|d s IH]; [done|]. simpl.
  destruct (Ascii.eqb c d) eqn:E; [done|]. intros H.
  destruct (contains "." s); [|done]. simpl. rewrite E. auto.
Qed.

Lemma contains_after_last c a s :
  contains c s = false -> contains c (after_last a s) = false.
Proof.
  induction s as [|d s IH]; [done|]. simpl.
  destruct (Ascii.eqb c d) eqn:E; [done|]. intros H.
  destruct (contains a s); [auto|].
  destruct (Ascii.eqb a d); [done|]. simpl. by rewrite E.
Qed.

Lemma split_at_last_dot s :
  contains "." s = true -> before_last_dot s +:+ "." +:+ after_last "." s = s.
Proof.
  induction s as [|d s IH]; [done|]. simpl.
  destruct (contains "." s) eqn:E.
  - intros _. change (String d (before_last_dot s) +:+ "." +:+ after_last "." s)
      with (String d (before_last_dot s +:+ "." +:+ after_last "." s)).
    by rewrite IH.
  - destruct (Ascii.eqb "." d) eqn:Ed; [|done].
    apply Ascii.eqb_eq in Ed. by subst d.
Qed.

Lemma stem_suffix p : stem p +:+ suffix p = name p.
Proof.
  unfold stem, suffix. destruct (has_suffix (name p)) eqn:E.
  - unfold has_suffix in E. apply andb_prop in E as [E _].
    apply andb_prop in E as [E _]. by apply split_at_last_dot.
  - generalize (name p). intros s. induction s as [|d s IH]; [done|].
    change (String d s +:+ "") with (String d (s +:+ "")). by rewrite IH.
Qed.

Lemma contains_stem c p : contains c (name p) = false -> contains c (stem p) = false.
Proof.
  unfold stem. destruct (has_suffix (name p)); [|done].
  apply contains_before_last_dot.
Qed.

Lemma contains_suffix c p :
  c <> "."%char -> contains c (name p) = false -> contains c (suffix p) = false.
Proof.
  intros Hc H. unfold suffix. destruct (has_suffix (name p)); [|done].
  rewrite contains_app. rewrite contains_after_last by done.
  simpl. apply Ascii.eqb_neq in Hc. by rewrite Hc.
Qed.

Lemma split_slash_clean s : Forall (fun x => contains "/" x = false) (split_slash s).
Proof.
  induction s as [|d s IH]; [by repeat constructor|]. cbn [split_slash].
  destruct (Ascii.eqb d "/") eqn:E; [by constructor|].
  rewrite Ascii.eqb_sym in E.
  destruct (split_slash s) as [|h t].
  - constructor; [|done]. cbn [contains]. by rewrite E.
  - apply Forall_cons in IH as [Hh Ht]. constructor; [|done].
    cbn [contains]. by rewrite E.
Qed.

(** the paths that [pathlib] parses are well formed *)
Lemma parse_well_formed s : well_formed (parse s) = true.
Proof.
  unfold parse. destruct (splitroot s) as [r rel]. unfold well_formed. cbn [names].
  apply forallb_forall. intros x Hx. apply list_elem_of_In in Hx.
  apply list_elem_of_filter in Hx as [Hkeep Hx].
  pose proof (split_slash_clean rel) as Hc. rewrite Forall_forall in Hc.
  unfold valid_name. unfold keep_component in Hkeep. by rewrite Hkeep, Hc.
Qed.

Lemma joinpath_well_formed p s :
  well_formed p = true -> well_formed (joinpath p s) = true.
Proof.
  intros Hp. unfold joinpath.
  pose proof (parse_well_formed s) as Hs.
  destruct (is_empty (root (parse s))); [|done].
  unfold well_formed in *. cbn [names]. rewrite forallb_app. by rewrite Hp, Hs.
Qed.

(** the name of a well-formed path that has one *)
Lemma name_valid p : well_formed p = true -> name p <> "" -> valid_name (name p) = true.
Proof.
  unfold well_formed, name. intros Hwf Hne.
  rewrite forallb_forall in Hwf. apply Hwf.
  destruct (names p) as [|x l] eqn:E; [done|].
  assert (H : In (List.last (x :: l) "") (removelast (x :: l) ++ [List.last (x :: l) ""]))
    by (apply in_or_app; right; by left).
  by rewrite <- app_removelast_last in H.
Qed.

Lemma candidate_valid p i :
  valid_name (name p) = true -> 1 <= i ->
  valid_name (candidate_name (stem p) (suffix p) i) = true.
Proof.
  unfold valid_name. intros H Hi.
  apply andb_prop in H as [_ Hs]. apply negb_true_iff in Hs.
  set (c := candidate_name _ _ _).
  assert (Hu : contains "_" c = true).
  { subst c. unfold candidate_name. rewrite !contains_app. simpl.
    by rewrite orb_true_r. }
  assert (Hsl : contains "/" c = false).
  { subst c. unfold candidate_name. rewrite !contains_app.
    rewrite contains_stem, contains_suffix, str_of_nonneg_clean by (done || lia).
    done. }
  rewrite Hsl.
  destruct c as [|a c]; [done|]. simpl.
  destruct (String.eqb (String a c) ".") eqn:E; [|done].
  apply String.eqb_eq in E. by rewrite E in Hu.
Qed.

Lemma with_name_sibling p nm :
  name p <> "" -> valid_name nm = true -> with_name p nm = inr (sibling p nm).
Proof.
  intros Hp Hn. unfold with_name. rewrite Hn.
  destruct (name p); [done|]. done.
Qed.

Lemma join_slash_snoc l x : join_slash (l ++ [x]) = dir_prefix l +:+ x.
Proof.
  induction l as [|y l IH]; [done|].
  change ((y :: l) ++ [x]) with (y :: (l ++ [x])).
  assert (join_slash (y :: (l ++ [x])) = y +:+ "/" +:+ join_slash (l ++ [x])) as ->.
  { simpl. by destruct (l ++ [x]) eqn:E; [destruct l|]. }
  rewrite IH. simpl. by rewrite !str_app_assoc.
Qed.

Lemma to_str_named r l : l <> [] -> to_str (mkPath r l) = r +:+ join_slash l.
Proof. intros H. unfold to_str. cbn [root names]. by destruct r, l. Qed.

Lemma to_str_sibling p nm :
  to_str (sibling p nm) = root p +:+ dir_prefix (removelast (names p)) +:+ nm.
Proof.
  unfold sibling. rewrite to_str_named, join_slash_snoc; [done|].
  by destruct (removelast (names p)).
Qed.

Lemma to_str_sibling_inj p a b : to_str (sibling p a) = to_str (sibling p b) -> a = b.
Proof.
  rewrite !to_str_sibling. intros H.
  by do 2 apply String.app_inj in H.
Qed.

Lemma sibling_self p : name p <> "" -> sibling p (name p) = p.
Proof.
  unfold sibling, name. destruct p as [r l]. cbn [root names]. intros H.
  f_equal. symmetry. apply app_removelast_last. by destruct l.
Qed.

Lemma candidate_name_inj base suf i j :
  candidate_name base suf i = candidate_name base suf j -> i = j.
Proof.
  unfold candidate_name. intros H.
  apply String.app_inj in H. apply (String.app_inj "_") in H.
  apply str_app_inv_tail in H. by apply (inj pretty) in H.
Qed.

(** a finite file system cannot hold all of [size + 1] distinct names *)
Lemma free_key_exists (f : gmap string Node) (key : Z -> string) :
  (forall i j, key i = key j -> i = j) ->
  exists i, 1 <= i <= Z.of_nat (S (size f)) /\ f !! key i = None.
Proof.
  intros Hinj.
  set (l := (fun n : nat => key (Z.of_nat n)) <$> seq 1 (S (size f))).
  destruct (decide (Forall (fun k => is_Some (f !! k)) l)) as [Hall|Hnot].
  - exfalso.
    assert (Hnd : NoDup l).
    { subst l. apply NoDup_fmap_2; [|apply NoDup_seq].
      intros a b Hab. apply Hinj in Hab. lia. }
    assert (Hsub : list_to_set l ⊆ dom f).
    { intros k Hk. apply elem_of_list_to_set in Hk.
      rewrite Forall_forall in Hall. apply elem_of_dom. auto. }
    apply subseteq_size in Hsub.
    rewrite size_list_to_set, size_dom in Hsub by done.
    subst l. rewrite length_fmap, length_seq in Hsub. lia.
  - apply not_Forall_Exists in Hnot; [|apply _].
    apply Exists_exists in Hnot as (k & Hk & Hfree).
    subst l. apply list_elem_of_fmap in Hk as (n & -> & Hn).
    apply elem_of_seq in Hn. exists (Z.of_nat n). split; [lia|].
    simpl in Hfree. by apply eq_None_not_Some.
Qed.

Lemma exists_calm env p w :
  fault env (OpStat (to_str p)) = None ->
  Fs.exists_ env p w = (Returned (bool_decide (is_Some (fs w !! to_str p))), w).
Proof. intros H. unfold Fs.exists_, bind, syscall. by rewrite H. Qed.

Section Loop.
Context (env : Env) (path : Path) (w : World).
Context (Hname : name path <> "") (Hvalid : valid_name (name path) = true).
Context (Hcalm : forall p, fault env (OpStat p) = None).

Lemma candidate_inj i j : to_str (candidate path i) = to_str (candidate path j) -> i = j.
Proof. intros H. apply to_str_sibling_inj in H. by apply candidate_name_inj in H. Qed.

Lemma resolve_collision_loop_finds fuel : forall i,
  1 <= i ->
  (exists j, i <= j < i + Z.of_nat fuel /\ fs w !! to_str (candidate path j) = None) ->
  exists m, i <= m
    /\ resolve_collision_loop env fuel path (stem path) (suffix path) i w
         = (Returned (candidate path m), w)
    /\ fs w !! to_str (candidate path m) = None
    /\ forall k, i <= k < m -> is_Some (fs w !! to_str (candidate path k)).
Proof.
  induction fuel as [|fuel IH]; intros i Hi (j & Hj & Hfree); [lia|].
  cbn [resolve_collision_loop]. unfold bind at 1.
  rewrite with_name_sibling by (done || by apply candidate_valid).
  cbn [lift ret]. unfold bind at 1.
  rewrite exists_calm by done. fold (candidate path i).
  destruct (fs w !! to_str (candidate path i)) as [n|] eqn:Ei.
  - rewrite bool_decide_true by done. cbn [negb].
    assert (j <> i) by (intros ->; congruence).
    destruct (IH (i + 1)) as (m & Hm & Hrun & Hm_free & Hbusy); [lia| |].
    { exists j. split; [lia|done]. }
    exists m. split; [lia|]. split; [done|]. split; [done|].
    intros k Hk. destruct (decide (k = i)) as [->|]; [by rewrite Ei|].
    apply Hbusy. lia.
  - rewrite bool_decide_false by (by intros [? ?]). cbn [negb ret].
    exists i. split; [lia|]. split; [done|]. split; [done|]. intros k Hk. lia.
Qed.

End Loop.

End CollisionFacts.

(** For a path with a file name, and as long as the existence tests
    themselves are answered, [resolve_collision] returns: the path
    itself if nothing is there, and otherwise the first of its numbered
    siblings at which nothing exists. *)
Lemma resolve_collision_answered (env : Env) (path : Path) (w : World) :
  well_formed path = true ->
  PosixPath.name path <> "" ->
  (forall p, fault env (OpStat p) = None) ->
  exists q,
    resolve_collision env path w = (Returned q, w)
    /\ fs w !! PosixPath.to_str q = None
    /\ PosixPath.stem path +:+ PosixPath.suffix path = PosixPath.name path
    /\ ((fs w !! PosixPath.to_str path = None /\ q = path)
        \/ (is_Some (fs w !! PosixPath.to_str path)
            /\ exists i, 1 <= i
               /\ PosixPath.with_name path
                    (candidate_name (PosixPath.stem path) (PosixPath.suffix path) i) = inr q
               /\ forall j, 1 <= j < i ->
                    exists c,
                      PosixPath.with_name path
                        (candidate_name (PosixPath.stem path) (PosixPath.suffix path) j) = inr c
                      /\ is_Some (fs w !! PosixPath.to_str c))).
Proof.
  intros Hwf Hname Hcalm.
  pose proof (name_valid path Hwf Hname) as Hvalid.
  unfold resolve_collision, resolve_collision_fuel, bind.
  rewrite exists_calm by done.
  destruct (fs w !! PosixPath.to_str path) as [n|] eqn:E.
  - rewrite bool_decide_true by done. cbn [negb].
    destruct (free_key_exists (fs w)
                (fun i => PosixPath.to_str
                   (sibling path (candidate_name (PosixPath.stem path) (PosixPath.suffix path) i))))
      as (j & Hj & Hfree).
    { intros a b. by apply candidate_inj. }
    destruct (resolve_collision_loop_finds env path w Hname Hvalid Hcalm (S (size (fs w))) 1)
      as (m & Hm & Hrun & Hm_free & Hbusy); [lia| |].
    { exists j. split; [lia|done]. }
    eexists. split; [exact Hrun|]. split; [done|]. split; [apply stem_suffix|].
    right. split; [done|]. exists m. split; [done|]. split.
    + apply with_name_sibling; [done|]. by apply candidate_valid.
    + intros k Hk. eexists. split.
      * apply with_name_sibling; [done|]. apply candidate_valid; [done|lia].
      * by apply Hbusy.
  - rewrite bool_decide_false by (by intros [? ?]). cbn [negb ret].
    exists path. split; [done|]. split; [done|]. split; [apply stem_suffix|].
    by left.
Qed.

(** ** The retry policy *)

Section RetryFacts.
Import Urllib3.
Context (env : Env) (url : string).

Lemma is_retry_retried r resp :
  is_retry r "GET" (status_code resp) (has_retry_after resp) = true ->
  retried r (Replied resp) = true.
Proof.
  unfold is_retry, retried.
  destruct (_is_method_retryable r "GET"); [|done]. cbn [negb andb].
  destruct (bool_decide (status_code resp ∈ status_forcelist r)); [done|].
  cbn [orb]. intros H. apply andb_prop in H as [H ->].
  apply andb_prop in H as [_ ->]. done.
Qed.

(** one failure that is retried, followed by the rest of the run *)
Lemma urlopen_again fuel r n pauses (a : Attempt) (response : option Response) cause :
  server env url n = a ->
  retried r a = true ->
  sleep (mkRetry (total r - 1) (backoff_factor r) (status_forcelist r)
           (allowed_methods r) (S (consecutive_errors r))) response
    = pause_for r (S (consecutive_errors r)) a ->
  (forall r' ps, (Z.to_nat (total r') < fuel)%nat ->
     urlopen_post env url r' (S n) ps (urlopen env fuel "GET" url r' (S n) ps)) ->
  (Z.to_nat (total r) < S fuel)%nat ->
  urlopen_post env url r n pauses
    match increment r with
    | None => (Raised (max_retry_error url cause), S n, pauses)
    | Some r' => urlopen env fuel "GET" url r' (S n) (pauses ++ [sleep r' response])
    end.
Proof.
  intros Ha Hretried Hpz IH Hfuel. unfold increment, is_exhausted.
  cbn [total]. destruct (total r - 1 <? 0) eqn:Hex.
  - unfold urlopen_post. split; [done|]. split; [lia|]. split; [done|].
    exists []. split; [by rewrite app_nil_r|]. split; [simpl; lia|].
    intros k ? ?. lia.
  - apply Z.ltb_ge in Hex.
    set (r' := mkRetry _ _ _ _ _).
    specialize (IH r' (pauses ++ [sleep r' response])).
    destruct (urlopen env fuel "GET" url r' (S n) (pauses ++ [sleep r' response]))
      as [[res n'] ps].
    destruct IH as (Hres & Hn' & Hlast & new & -> & Hlen & Hnew).
    { subst r'. cbn [total]. lia. }
    subst r'. cbn [total] in Hn'.
    unfold urlopen_post. split; [done|]. split; [lia|]. split; [done|].
    exists (sleep (mkRetry (total r - 1) (backoff_factor r) (status_forcelist r)
                     (allowed_methods r) (S (consecutive_errors r))) response :: new).
    split; [by rewrite <- app_assoc|]. split; [simpl; lia|].
    intros k Hk1 Hk2. destruct (decide (k = n)) as [->|Hkn].
    + rewrite Ha. split; [done|]. rewrite Nat.sub_diag. cbn [lookup list_lookup].
      rewrite Hpz. do 2 f_equal. lia.
    + destruct (Hnew k) as [Hr Hp]; [lia|lia|]. split; [exact Hr|].
      replace (k - n)%nat with (S (k - S n)) by lia. cbn [lookup list_lookup].
      change (new !! (k - S n)%nat = Some (pause_for r (consecutive_errors r + S (S (k - S n))) (server env url k))).
      rewrite Hp. cbn [consecutive_errors]. do 2 f_equal. lia.
Qed.

Lemma urlopen_spec fuel : forall r n pauses,
  (Z.to_nat (total r) < fuel)%nat ->
  urlopen_post env url r n pauses (urlopen env fuel "GET" url r n pauses).
Proof.
  induction fuel as [|fuel IH]; intros r n pauses Hfuel; [lia|].
  cbn [urlopen]. destruct (server env url n) as [e|e|e|resp] eqn:Ha.
  - apply (urlopen_again fuel r n pauses (ConnectFailed e) None); auto.
  - destruct (_is_method_retryable r "GET") eqn:Hm.
    + apply (urlopen_again fuel r n pauses (ReadFailed e) None); auto.
    + unfold urlopen_post. split; [done|]. split; [lia|]. split; [done|].
      exists []. split; [by rewrite app_nil_r|]. split; [simpl; lia|]. intros; lia.
  - unfold urlopen_post. split; [done|]. split; [lia|]. split; [done|].
    exists []. split; [by rewrite app_nil_r|]. split; [simpl; lia|]. intros; lia.
  - destruct (is_retry r "GET" (status_code resp) (has_retry_after resp)) eqn:Hr.
    + apply (urlopen_again fuel r n pauses (Replied resp) (Some resp));
        auto using is_retry_retried.
    + unfold urlopen_post. split; [done|]. split; [lia|].
      split; [by replace (S n - 1)%nat with n by lia|].
      exists []. split; [by rewrite app_nil_r|]. split; [simpl; lia|]. intros; lia.
Qed.

End RetryFacts.

(** C5 (as amended).  Under the policy installed by [create_session], one
    GET is attempted at least once and at most six times: the first
    attempt and up to five retries.  An attempt is followed by another
    one only if it ended in a connection failure, a read failure, a reply
    with status 429, 500, 502, 503 or 504, or a reply with status 413,
    429 or 503 that carries [Retry-After].  The pause before retry number
    [k+1] is the time a [Retry-After] header of the reply asks for, or
    else the back-off of 0, 1, 2, 4, 8 seconds for [k] = 0..4, that is
    0.5 * 2^k from the second retry on.  Replies are retried for the
    methods GET and HEAD only. *)
Theorem retry_policy_of_create_session (env : Env) (url : string)
    (res : Res Response) (n : nat) (ps : list Q) :
  session_get_run env create_session url = (res, n, ps) ->
  res <> Running
  /\ (1 <= n <= 6)%nat
  /\ length ps = (n - 1)%nat
  /\ (forall k, (S k < n)%nat ->
        match server env url k with
        | ConnectFailed _ | ReadFailed _ => True
        | Fatal _ => False
        | Replied r =>
            status_code r ∈ [429; 500; 502; 503; 504]
            \/ (has_retry_after r = true /\ status_code r ∈ [413; 429; 503])
        end
        /\ exists q, ps !! k = Some q
             /\ ((q == backoff_seconds k)%Q
                 \/ exists r, server env url k = Replied r /\ retry_after r = Some q))
  /\ (forall method status with_retry_after,
        Urllib3.is_retry (max_retries create_session) method status with_retry_after = true ->
        Py.upper method = "GET" \/ Py.upper method = "HEAD").
Proof.
  intros Hrun.
  pose proof (urlopen_spec env url (S (Z.to_nat 5)) (max_retries create_session) 0 []) as H.
  unfold session_get_run in Hrun. cbn [create_session create_session_with max_retries total] in Hrun.
  cbn [create_session create_session_with max_retries total] in H.
  rewrite Hrun in H. destruct H as (Hres & Hn & _ & new & Hps & Hlen & Hnew); [lia|].
  cbn [app] in Hps. subst new.
  split; [done|]. split; [simpl in Hn; lia|]. split; [lia|]. split.
  - intros k Hk. destruct (Hnew k) as [Hr Hp]; [lia|done|].
    rewrite Nat.sub_0_r in Hp. cbn [consecutive_errors plus] in Hp.
    assert (Hk5 : (k < 5)%nat) by (simpl in Hn; lia).
    assert (Hq : (Urllib3.backoff_time (1 # 2) (S k) == backoff_seconds k)%Q).
    { destruct k as [|[|[|[|[|k]]]]]; [vm_compute; reflexivity..|lia]. }
    destruct (server env url k) as [e|e|e|r]; cbn [retried pause_for backoff_factor] in Hr, Hp.
    + split; [done|]. eauto.
    + split; [done|]. eauto.
    + done.
    + apply andb_prop in Hr as [_ Hr]. apply orb_prop in Hr. split.
      * destruct Hr as [Hr|Hr].
        -- left. by apply bool_decide_eq_true in Hr.
        -- right. apply andb_prop in Hr as [-> Hr]. by apply bool_decide_eq_true in Hr.
      * destruct (retry_after r) as [s|] eqn:Hra; [|eauto].
        destruct (Qeq_bool s 0); eauto 6.
  - intros method status ra. unfold Urllib3.is_retry, Urllib3._is_method_retryable.
    cbn [create_session create_session_with max_retries allowed_methods].
    case_bool_decide as Hm; [|done]. intros _.
    apply elem_of_cons in Hm as [Hm|Hm]; [by left|].
    apply elem_of_cons in Hm as [Hm|Hm]; [by right|].
    by apply elem_of_nil in Hm.
Qed.

Lemma retry_policy_of_create_session_witness :
  session_get_run (calm_env secret_seed0 busy_once) create_session "http://host/a.pdf"
    = (Returned pdf_body, 2%nat, [3 # 1])
  /\ (1 <= 2 <= 6)%nat.
Proof.
  destruct (retry_policy_of_create_session (calm_env secret_seed0 busy_once)
              "http://host/a.pdf" (Returned pdf_body) 2 [3 # 1])
    as (_ & Hn & _); [vm_compute; reflexivity|].
  split; [vm_compute; reflexivity | exact Hn].
Defined.

(** C5, counterexample.  Against a server that always answers 503 the
    session makes six attempts, not five; and a 413 reply that carries
    [Retry-After] is retried although 413 is not in the status list. *)
Lemma create_session_allows_six_attempts :
  snd (fst (session_get_run (calm_env secret_seed0 always_503) create_session
              "http://host/a.pdf")) = 6%nat
  /\ fst (session_get_run (calm_env secret_seed0 busy_once) create_session
            "http://host/a.pdf") = (Returned pdf_body, 2%nat).
Proof. split; vm_compute; reflexivity. Qed.

(** ** The file-system operations *)

Section FsFacts.
Import PosixPath.
Context (env : Env).

Lemma only_at_refl t w : only_at t w w.
Proof. exists []. by repeat split. Qed.

Lemma only_at_fs t w w' k : only_at t w w' -> k <> t -> fs w' !! k = fs w !! k.
Proof.
  intros (new & _ & Hall & ->) Hk.
  destruct new as [|s new]; [done|]. cbn [List.hd].
  apply Forall_cons in Hall as [Hs _]. auto.
Qed.

Lemma only_at_trans t w1 w2 w3 : only_at t w1 w2 -> only_at t w2 w3 -> only_at t w1 w3.
Proof.
  intros H12 (new2 & Ht2 & Hall2 & Hfs2).
  pose proof (only_at_fs t w1 w2) as Hk.
  destruct H12 as (new1 & Ht1 & Hall1 & Hfs1).
  exists (new2 ++ new1). split; [by rewrite Ht2, Ht1, app_assoc|]. split.
  - apply Forall_app. split; [|done].
    eapply Forall_impl; [exact Hall2|]. cbn beta.
    intros s Hs k Hkt. rewrite Hs by done. apply Hk; [|done].
    exists new1. by repeat split.
  - rewrite Hfs2. destruct new2; [done|]. done.
Qed.

(** one write to the file system at [t] *)
Lemma set_fs_only_at t f w :
  (forall k, k <> t -> f !! k = fs w !! k) ->
  only_at t w (snd (set_fs f w)).
Proof. intros H. exists [f]. split; [done|]. split; [by apply Forall_singleton | done]. Qed.

Lemma syscall_inv op w r w' :
  syscall env op w = (r, w') ->
  w' = w /\ ((fault env op = None /\ r = Returned tt) \/ (exists e, fault env op = Some e /\ r = Raised e)).
Proof.
  unfold syscall. destruct (fault env op) as [e|]; intros [= <- <-]; eauto.
Qed.

Lemma exists_inv p w r w' :
  Fs.exists_ env p w = (r, w') ->
  w' = w
  /\ ((fault env (OpStat (to_str p)) = None
       /\ r = Returned (bool_decide (is_Some (fs w !! to_str p))))
      \/ (exists e, fault env (OpStat (to_str p)) = Some e /\ r = Raised e)).
Proof.
  unfold Fs.exists_, bind, syscall.
  destruct (fault env _) as [e|]; intros [= <- <-]; eauto.
Qed.

Lemma open_wb_inv p w r w' :
  Fs.open_wb env p w = (r, w') ->
  only_at (to_str p) w w'
  /\ ((r = Returned tt /\ fs w' !! to_str p = Some (File []))
      \/ (exists e, r = Raised e /\ w' = w)).
Proof.
  unfold Fs.open_wb, bind, syscall.
  destruct (fault env _) as [e|]; [intros [= <- <-]; split; [apply only_at_refl | eauto]|].
  cbn [ret get_fs].
  assert (Hset : forall f,
    f = <[to_str p := File []]> (fs w) ->
    set_fs f w = (r, w') ->
    only_at (to_str p) w w' /\
    (r = Returned tt /\ fs w' !! to_str p = Some (File []) \/ (exists e, r = Raised e /\ w' = w))).
  { intros f -> [= <- <-]. split.
    - apply (set_fs_only_at _ _ w). intros k Hk. by rewrite lookup_insert_ne.
    - left. split; [done|]. cbn. by rewrite lookup_insert_eq. }
  destruct (fs w !! to_str p) as [[|c]|]; [|by apply Hset..].
  intros [= <- <-]. split; [apply only_at_refl | eauto].
Qed.

Lemma write_inv p chunk w r w' :
  Fs.write env p chunk w = (r, w') ->
  only_at (to_str p) w w'
  /\ ((r = Returned tt
       /\ fs w' !! to_str p = Fs.append chunk <$> fs w !! to_str p)
      \/ (exists e, r = Raised e /\ w' = w)).
Proof.
  unfold Fs.write, bind, syscall. cbn [get_fs].
  destruct (fault env _) as [e|]; [intros [= <- <-]; split; [apply only_at_refl | eauto]|].
  cbn [ret]. intros [= <- <-]. split.
  - apply (set_fs_only_at _ _ w). intros k Hk. by rewrite lookup_alter_ne.
  - left. split; [done|]. cbn. by rewrite lookup_alter_eq.
Qed.

Lemma close_inv p w r w' :
  Fs.close env p w = (r, w') -> w' = w /\ r <> Running.
Proof.
  unfold Fs.close. intros H. apply syscall_inv in H as [-> [[_ ->]|(e & _ & ->)]]; done.
Qed.

Lemma unlink_inv p w r w' :
  Fs.unlink env p w = (r, w') ->
  only_at (to_str p) w w'
  /\ r <> Running
  /\ (fault env (OpUnlink (to_str p)) = None ->
      forall c, fs w' !! to_str p <> Some (File c)).
Proof.
  unfold Fs.unlink, bind, syscall.
  destruct (fault env _) as [e|];
    [intros [= <- <-]; split; [apply only_at_refl | done]|].
  cbn [ret get_fs].
  destruct (fs w !! to_str p) as [[|c]|] eqn:E.
  - intros [= <- <-]. split; [apply only_at_refl|]. split; [done|].
    intros _ c. by rewrite E.
  - intros [= <- <-]. split; [|split; [done|]].
    + apply (set_fs_only_at _ _ w). intros k Hk. by rewrite lookup_delete_ne.
    + intros _ c'. cbn. by rewrite lookup_delete_eq.
  - intros [= <- <-]. split; [apply only_at_refl|]. split; [done|].
    intros _ c. by rewrite E.
Qed.

Lemma replace_inv src dst w r w' :
  Fs.replace env src dst w = (r, w') ->
  (exists e, r = Raised e /\ w' = w)
  \/ (r = Returned tt
      /\ exists n, fs w !! to_str src = Some n
         /\ w' = mkWorld (<[to_str dst := n]> (delete (to_str src) (fs w)))
                   (<[to_str dst := n]> (delete (to_str src) (fs w)) :: trace w)).
Proof.
  unfold Fs.replace, bind, syscall.
  destruct (fault env _) as [e|]; [intros [= <- <-]; eauto|].
  cbn [ret get_fs].
  destruct (fs w !! to_str src) as [[|c]|], (fs w !! to_str dst) as [[|c']|];
    intros [= <- <-]; eauto.
Qed.

Lemma bind_inv {A B} (m : M A) (k : A -> M B) w r w' :
  bind m k w = (r, w') ->
  (exists a w1, m w = (Returned a, w1) /\ k a w1 = (r, w'))
  \/ (exists e, m w = (Raised e, w') /\ r = Raised e)
  \/ (m w = (Running, w') /\ r = Running).
Proof.
  unfold bind. destruct (m w) as [[a|e|] w1]; [eauto| |].
  - intros [= <- <-]. eauto.
  - intros [= <- <-]. eauto.
Qed.

Lemma write_chunks_inv temp stream_end cs : forall w c0 r w',
  fs w !! to_str temp = Some (File c0) ->
  write_chunks env temp cs stream_end w = (r, w') ->
  only_at (to_str temp) w w'
  /\ ((r = Returned tt /\ stream_end = None
       /\ fs w' !! to_str temp = Some (File (c0 ++ concat cs)))
      \/ exists e, r = Raised e).
Proof.
  induction cs as [|chunk cs IH]; intros w c0 r w' Hfile.
  - cbn [write_chunks]. destruct stream_end as [e|]; intros [= <- <-].
    + split; [apply only_at_refl | eauto].
    + split; [apply only_at_refl|]. left. cbn [concat]. by rewrite app_nil_r.
  - cbn [write_chunks]. intros H.
    apply bind_inv in H as [(a & w1 & Hw & Hrest)|[(e & Hw & ->)|[Hw ->]]].
    + assert (Hstep : only_at (to_str temp) w w1
                      /\ fs w1 !! to_str temp = Some (File (c0 ++ chunk))).
      { destruct chunk as [|b chunk].
        - injection Hw as _ <-. split; [apply only_at_refl|]. by rewrite app_nil_r.
        - apply write_inv in Hw as [Honly [[_ Hfs]|(e & He & _)]]; [|done].
          split; [done|]. by rewrite Hfs, Hfile. }
      destruct Hstep as [Honly Hfile1].
      destruct (IH _ _ _ _ Hfile1 Hrest) as [Honly' Hres].
      split; [by eapply only_at_trans|].
      destruct Hres as [(-> & -> & Hfs)|[e ->]]; [|eauto].
      left. split; [done|]. split; [done|]. cbn [concat]. by rewrite app_assoc.
    + split; [|eauto]. destruct chunk as [|b chunk]; [done|].
      by apply write_inv in Hw as [Honly _].
    + destruct chunk as [|b chunk]; [done|].
      apply write_inv in Hw as [_ [[? _]|(e & ? & _)]]; done.
Qed.

(** the [with open(temp, "wb") as f:] block, once the file is open *)
Lemma write_and_close_inv temp stream_end cs w c0 r w' :
  fs w !! to_str temp = Some (File c0) ->
  with_closing (Fs.close env temp) (write_chunks env temp cs stream_end) w = (r, w') ->
  only_at (to_str temp) w w'
  /\ ((r = Returned tt /\ stream_end = None
       /\ fs w' !! to_str temp = Some (File (c0 ++ concat cs)))
      \/ exists e, r = Raised e).
Proof.
  intros Hfile. unfold with_closing.
  destruct (write_chunks env temp cs stream_end w) as [rb w1] eqn:Hb.
  apply (write_chunks_inv _ _ _ _ _ _ _ Hfile) in Hb as [Honly Hres].
  destruct (Fs.close env temp w1) as [rc w2] eqn:Hc.
  apply close_inv in Hc as [-> Hrc].
  destruct Hres as [(-> & -> & Hfs)|[e ->]].
  - destruct rc as [[]|e|]; intros [= <- <-]; (split; [done|]); [by left | eauto | done].
  - destruct rc as [[]|e'|]; intros [= <- <-]; (split; [done|]); [eauto | eauto | done].
Qed.

End FsFacts.

(** ** [download_one] *)

Section DownloadFacts.
Import PosixPath.
Context (env : Env) (url : string).

Lemma session_get_total (session : Session) :
  fst (fst (session_get_run env session url)) <> Running.
Proof.
  unfold session_get_run.
  pose proof (urlopen_spec env url (S (Z.to_nat (total (max_retries session))))
                (max_retries session) 0 []) as H.
  destruct (Urllib3.urlopen _ _ _ _ _ _ _) as [[res n] ps].
  destruct H as [H _]; [lia|]. done.
Qed.

Lemma raise_for_status_inv r w res w' :
  raise_for_status r w = (res, w') ->
  w' = w /\ res <> Running
  /\ (res = Returned tt -> ~ (400 <= status_code r < 600)).
Proof.
  unfold raise_for_status, raise, ret.
  destruct ((400 <=? status_code r) && (status_code r <? 500)) eqn:E4;
    [by intros [= <- <-]|].
  destruct ((500 <=? status_code r) && (status_code r <? 600)) eqn:E5;
    intros [= <- <-]; [done|].
  split; [done|]. split; [done|]. intros _.
  apply andb_false_iff in E4, E5. lia.
Qed.

(** The [try] body either raises, having touched the temporary path
    only, or returns success after one last step that puts the whole
    body at the destination. *)
Lemma fetch_and_publish_inv dest temp w r w' :
  fetch_and_publish env get_session url dest temp w = (r, w') ->
  (exists e, r = Raised e /\ only_at (to_str temp) w w')
  \/ (r = Returned (url, true, to_str dest)
      /\ exists w1 content,
           only_at (to_str temp) w w1
           /\ full_body env url content
           /\ trace w' = fs w' :: trace w1
           /\ fs w' = <[to_str dest := File content]> (delete (to_str temp) (fs w1))).
Proof.
  unfold fetch_and_publish. intros H.
  apply bind_inv in H as [(resp & w0 & Hget & H)|[(e & Hget & ->)|[Hget ->]]]; cycle 1.
  { injection Hget as _ <-. left. eexists. split; [done|]. apply only_at_refl. }
  { injection Hget as Hget _. by apply session_get_total in Hget. }
  injection Hget as Hget <-.
  apply bind_inv in H as [([] & w2 & Hbody & H)|[(e & Hbody & ->)|[Hbody ->]]].
  - (* the response was written and the file closed *)
    apply bind_inv in Hbody as [([] & w3 & Hst & Hbody)|[(e & Hst & ?)|[Hst ?]]];
      [|done|done].
    apply raise_for_status_inv in Hst as (-> & _ & Hok).
    apply bind_inv in Hbody as [([] & w4 & Hopen & Hbody)|[(e & Hopen & ?)|[Hopen ?]]];
      [|done|done].
    apply open_wb_inv in Hopen as [Honly1 [[_ Hfile]|(e & ? & _)]]; [|done].
    apply (write_and_close_inv _ _ _ _ _ _ _ _ Hfile) in Hbody
      as [Honly2 [(_ & Hend & Hfs)|[e ?]]]; [|done].
    pose proof (only_at_trans _ _ _ _ Honly1 Honly2) as Honly.
    apply bind_inv in H as [([] & w5 & Hren & H)|[(e & Hren & ->)|[Hren ->]]].
    + apply replace_inv in Hren as [(e & ? & _)|(_ & n & Hn & ->)]; [done|].
      injection H as <- <-. right. split; [done|].
      rewrite Hfs in Hn. injection Hn as <-.
      exists w2, (concat (chunks resp)). split; [done|]. split; [|done].
      exists resp. split; [done|]. split; [by apply Hok|done].
    + apply replace_inv in Hren as [(e' & _ & ->)|(? & _)]; [|done].
      left. eauto.
    + apply replace_inv in Hren as [(e' & ? & _)|(? & _)]; done.
  - (* the [with] block raised *)
    left. exists e. split; [done|].
    apply bind_inv in Hbody as [([] & w3 & Hst & Hbody)|[(e' & Hst & _)|[Hst _]]].
    + apply raise_for_status_inv in Hst as (-> & _ & Hok).
      apply bind_inv in Hbody as [([] & w4 & Hopen & Hbody)|[(e' & Hopen & _)|[Hopen _]]].
      * apply open_wb_inv in Hopen as [Honly1 [[_ Hfile]|(e' & ? & _)]]; [|done].
        apply (write_and_close_inv _ _ _ _ _ _ _ _ Hfile) in Hbody as [Honly2 _].
        by eapply only_at_trans.
      * by apply open_wb_inv in Hopen as [Honly1 _].
      * by apply open_wb_inv in Hopen as [Honly1 _].
    + apply raise_for_status_inv in Hst as (-> & _ & Hok). apply only_at_refl.
    + apply raise_for_status_inv in Hst as (-> & _ & Hok). apply only_at_refl.
  - (* the [with] block cannot be cut off *)
    exfalso.
    apply bind_inv in Hbody as [([] & w3 & Hst & Hbody)|[(e' & _ & ?)|[Hst _]]];
      [|done|by apply raise_for_status_inv in Hst as (_ & ? & _)].
    apply raise_for_status_inv in Hst as (-> & _ & Hok).
    apply bind_inv in Hbody as [([] & w4 & Hopen & Hbody)|[(e' & _ & ?)|[Hopen _]]];
      [|done|].
    + apply open_wb_inv in Hopen as [_ [[_ Hfile]|(e' & ? & _)]]; [|done].
      apply (write_and_close_inv _ _ _ _ _ _ _ _ Hfile) in Hbody
        as [_ [(? & _)|[e' ?]]]; done.
    + apply open_wb_inv in Hopen as [_ [[? _]|(e' & ? & _)]]; done.
Qed.

(** The handler returns the failed outcome whatever happens to the
    temporary file, which it touches alone. *)
Lemma cleanup_inv temp e w r w' :
  cleanup env url temp e w = (r, w') ->
  r = Returned (url, false, message e)
  /\ only_at (to_str temp) w w'
  /\ (fault env (OpStat (to_str temp)) = None ->
      fault env (OpUnlink (to_str temp)) = None ->
      forall c, fs w' !! to_str temp <> Some (File c)).
Proof.
  unfold cleanup, try_pass, try_except, bind at 1.
  destruct (bind (Fs.exists_ env temp) _ w) as [rb w1] eqn:Hb.
  apply bind_inv in Hb as [(there & w0 & Hex & Hb)|[(e' & Hex & ->)|[Hex ->]]].
  - apply exists_inv in Hex as [-> [[Hstat [= ->]]|(e' & _ & ?)]]; [|done].
    destruct (bool_decide _) eqn:Hthere.
    + apply unlink_inv in Hb as (Honly & Hrb & Hgone).
      destruct rb as [[]|e'|]; [| |done]; cbn [ret]; intros [= <- <-];
        (split; [done|]); (split; [done|]); auto.
    + injection Hb as <- <-. cbn [ret]. intros [= <- <-].
      split; [done|]. split; [apply only_at_refl|].
      intros _ _ c Hc. apply bool_decide_eq_false in Hthere.
      apply Hthere. by rewrite Hc.
  - apply exists_inv in Hex as [-> [[Hstat ?]|(e'' & Hstat & _)]]; [done|].
    cbn [ret]. intros [= <- <-]. split; [done|]. split; [apply only_at_refl|].
    intros Hnone. by rewrite Hstat in Hnone.
  - apply exists_inv in Hex as [_ [[_ ?]|(e'' & _ & ?)]]; done.
Qed.

Lemma lift_inv {A} (x : Exn + A) w r w' :
  lift x w = (r, w') ->
  w' = w /\ match x with inl e => r = Raised e | inr a => r = Returned a end.
Proof. destruct x; by intros [= <- <-]. Qed.

Lemma resolve_collision_loop_inv path base suffix fuel : forall i w r w',
  resolve_collision_loop env fuel path base suffix i w = (r, w') ->
  w' = w /\ forall q, r = Returned q -> fs w !! to_str q = None.
Proof.
  induction fuel as [|fuel IH]; intros i w r w'; cbn [resolve_collision_loop].
  - by intros [= <- <-].
  - intros H.
    apply bind_inv in H as [(c & w1 & Hc & H)|[(e & Hc & ->)|[Hc ->]]];
      apply lift_inv in Hc as [-> Hc]; [|done..].
    apply bind_inv in H as [(b & w1 & Hex & H)|[(e & Hex & ->)|[Hex ->]]];
      apply exists_inv in Hex as [-> Hex]; [|done..].
    destruct Hex as [[_ [= ->]]|(e & _ & ?)]; [|done].
    destruct (bool_decide _) eqn:Hb; cbn [negb] in H.
    + by apply IH in H.
    + injection H as <- <-. split; [done|]. intros q [= <-].
      apply bool_decide_eq_false in Hb. by apply eq_None_not_Some.
Qed.

Lemma resolve_collision_inv path w r w' :
  resolve_collision env path w = (r, w') ->
  w' = w /\ forall q, r = Returned q -> fs w !! to_str q = None.
Proof.
  unfold resolve_collision, resolve_collision_fuel. intros H.
  apply bind_inv in H as [(b & w1 & Hex & H)|[(e & Hex & ->)|[Hex ->]]];
    apply exists_inv in Hex as [-> Hex]; [|done..].
  destruct Hex as [[_ [= ->]]|(e & _ & ?)]; [|done].
  destruct (bool_decide _) eqn:Hb; cbn [negb] in H.
  - by apply resolve_collision_loop_inv in H.
  - injection H as <- <-. split; [done|]. intros q [= <-].
    apply bool_decide_eq_false in Hb. by apply eq_None_not_Some.
Qed.

Lemma with_name_inv p nm q :
  with_name p nm = inr q -> name p <> "" /\ q = sibling p nm.
Proof.
  unfold with_name. destruct (name p) eqn:E; [done|]. cbn [Py.is_empty].
  destruct (negb (valid_name nm)); [done|]. by intros [= <-].
Qed.

Lemma part_differs dest temp :
  with_name dest (name dest +:+ ".part") = inr temp -> to_str temp <> to_str dest.
Proof.
  intros H. apply with_name_inv in H as [Hname ->]. intros Heq.
  rewrite <- (sibling_self dest Hname) in Heq at 3.
  apply to_str_sibling_inj in Heq.
  apply (f_equal String.length) in Heq. rewrite str_length_app in Heq.
  simpl in Heq. lia.
Qed.

(** The loop of [resolve_collision] is not cut off: within the rounds it
    is given there is a free name, and it stops there at the latest
    (earlier if a call raises). *)
Lemma resolve_collision_loop_total path w fuel : forall i,
  (exists j, i <= j < i + Z.of_nat fuel /\ fs w !! to_str (candidate path j) = None) ->
  fst (resolve_collision_loop env fuel path (stem path) (suffix path) i w) <> Running.
Proof.
  induction fuel as [|fuel IH]; intros i (j & Hj & Hfree); [lia|].
  cbn [resolve_collision_loop]. unfold bind at 1.
  destruct (with_name path (candidate_name (stem path) (suffix path) i)) as [e|c] eqn:Hc;
    [done|].
  apply with_name_inv in Hc as [_ ->]. fold (candidate path i).
  cbn [lift ret]. unfold bind at 1.
  destruct (Fs.exists_ env (candidate path i) w) as [r w1] eqn:Hex.
  apply exists_inv in Hex as [-> [[_ ->]|(e & _ & ->)]]; [|done].
  destruct (fs w !! to_str (candidate path i)) as [nd|] eqn:Ei.
  - rewrite bool_decide_true by done. cbn [negb].
    apply IH. exists j. split; [|done].
    assert (j <> i) by (intros ->; congruence). lia.
  - by rewrite bool_decide_false by (by intros [? ?]).
Qed.

Lemma resolve_collision_total path w :
  fst (resolve_collision env path w) <> Running.
Proof.
  unfold resolve_collision, resolve_collision_fuel, bind.
  destruct (Fs.exists_ env path w) as [r w1] eqn:Hex.
  apply exists_inv in Hex as [-> [[_ ->]|(e & _ & ->)]]; [|done].
  destruct (negb _); [done|].
  apply resolve_collision_loop_total.
  destruct (free_key_exists (fs w) (fun i => to_str (candidate path i)))
    as (j & Hj & Hfree).
  { intros a b H. apply to_str_sibling_inj in H. by apply candidate_name_inj in H. }
  exists j. split; [lia|done].
Qed.

(** [download_one] always ends: it returns an outcome or raises. *)
Lemma download_one_total dest_dir w :
  fst (download_one env url dest_dir w) <> Running.
Proof.
  destruct (download_one env url dest_dir w) as [r w'] eqn:H. cbn [fst].
  intros ->. unfold download_one in H.
  apply bind_inv in H as [([dest temp] & w0 & Hplan & H)|[(e & _ & ?)|[Hplan _]]];
    [|done|].
  - unfold try_except in H.
    destruct (fetch_and_publish env get_session url dest temp w0) as [rb w1] eqn:Hf.
    apply fetch_and_publish_inv in Hf as [(e & -> & _)|(-> & _)]; [|done].
    by apply cleanup_inv in H as (? & _).
  - unfold plan_paths in Hplan.
    apply bind_inv in Hplan as [(nm & w1 & Hn & H)|[(e & _ & ?)|[Hn _]]]; [|done|];
      apply lift_inv in Hn as [-> Hn]; [|by destruct (filename_from_url env url)].
    apply bind_inv in H as [(dest & w1 & Hd & H)|[(e & _ & ?)|[Hd _]]]; [|done|].
    + apply bind_inv in H as [(temp & w2 & Ht & H)|[(e & _ & ?)|[Ht _]]]; [done|done|].
      apply lift_inv in Ht as [_ Ht]. by destruct (with_name dest _).
    + pose proof (resolve_collision_total
                    (joinpath (of_str dest_dir) nm) w) as Htot.
      by rewrite Hd in Htot.
Qed.

Lemma part_text dest temp :
  with_name dest (name dest +:+ ".part") = inr temp ->
  to_str temp = to_str dest +:+ ".part".
Proof.
  intros H. apply with_name_inv in H as [Hname ->].
  rewrite <- (sibling_self dest Hname) at 3.
  by rewrite !to_str_sibling, !str_app_assoc.
Qed.

(** Working out the paths changes nothing on disk; the destination it
    returns does not exist, and the temporary path differs from it. *)
Lemma plan_paths_inv dest_dir w r w' :
  plan_paths env url dest_dir w = (r, w') ->
  w' = w
  /\ forall dest temp, r = Returned (dest, temp) ->
       fs w !! to_str dest = None
       /\ to_str temp <> to_str dest
       /\ with_name dest (name dest +:+ ".part") = inr temp.
Proof.
  unfold plan_paths. intros H.
  apply bind_inv in H as [(nm & w1 & Hn & H)|[(e & Hn & ->)|[Hn ->]]];
    apply lift_inv in Hn as [-> Hn]; [|done..].
  apply bind_inv in H as [(dest & w1 & Hd & H)|[(e & Hd & ->)|[Hd ->]]];
    apply resolve_collision_inv in Hd as [-> Hd]; [|done..].
  apply bind_inv in H as [(temp & w1 & Ht & H)|[(e & Ht & ->)|[Ht ->]]];
    apply lift_inv in Ht as [-> Ht]; [|done..].
  injection H as <- <-. split; [done|]. intros d t [= <- <-].
  destruct (with_name dest _) as [|temp'] eqn:E; [done|]. injection Ht as ->.
  split; [by apply Hd|]. split; [by apply part_differs|done].
Qed.

End DownloadFacts.

(** One call, and its own destination.  In every state the file system
    goes through during a call of [download_one], and in the state it is
    left in, the destination path of that call holds nothing or a file
    with the whole body of the reply, received without error: the rename
    to the destination is the last step of a successful transfer.  A
    call that ends before the [try] writes nothing at all.  (What the
    call does to the destinations of other calls is another matter.) *)
Theorem atomic_publish (env : Env) (url dest_dir : string) (w : World)
    (r : Res Outcome) (w' : World) :
  download_one env url dest_dir w = (r, w') ->
  match fst (plan_paths env url dest_dir w) with
  | Returned (dest, temp) =>
      PosixPath.to_str temp = PosixPath.to_str dest +:+ ".part"
      /\ fs w !! PosixPath.to_str dest = None
      /\ exists new,
           trace w' = new ++ trace w
           /\ Forall (absent_or_complete env url (PosixPath.to_str dest)) new
           /\ (forall info, r = Returned (url, true, info) ->
                 info = PosixPath.to_str dest
                 /\ exists content,
                      fs w' !! PosixPath.to_str dest = Some (File content)
                      /\ full_body env url content)
           /\ (forall info, r = Returned (url, false, info) ->
                 fs w' !! PosixPath.to_str dest = None)
  | _ => w' = w
  end.
Proof.
  unfold download_one. intros H.
  apply bind_inv in H as [([dest temp] & w0 & Hplan & H)|[(e & Hplan & ->)|[Hplan ->]]];
    rewrite Hplan; cbn [fst];
    apply plan_paths_inv in Hplan as [-> Hplan]; [|done..].
  destruct (Hplan dest temp eq_refl) as (Hfree & Hne & Htemp).
  split; [by apply part_text|]. split; [done|].
  assert (Habsent : forall w2, only_at (PosixPath.to_str temp) w w2 ->
            exists new, trace w2 = new ++ trace w
              /\ Forall (absent_or_complete env url (PosixPath.to_str dest)) new
              /\ fs w2 !! PosixPath.to_str dest = None).
  { intros w2 Honly. pose proof (only_at_fs _ _ _ _ Honly (not_eq_sym Hne)) as Hd.
    destruct Honly as (new & Ht & Hall & _). exists new. split; [done|].
    split; [|by rewrite Hd].
    eapply Forall_impl; [exact Hall|]. cbn beta. intros s Hs. left.
    rewrite Hs by done. done. }
  unfold try_except in H.
  destruct (fetch_and_publish env get_session url dest temp w) as [rb w1] eqn:Hf.
  apply fetch_and_publish_inv in Hf
    as [(e & -> & Honly)|(-> & w2 & content & Honly & Hbody & Htrace & Hfs)].
  - apply cleanup_inv in H as (-> & Honly' & _).
    destruct (Habsent w' (only_at_trans _ _ _ _ Honly Honly')) as (new & Ht & Hall & Hd).
    exists new. split; [done|]. split; [done|]. split; [done|]. done.
  - injection H as <- <-.
    destruct (Habsent w2 Honly) as (new & Ht & Hall & Hd).
    assert (Hdest : fs w1 !! PosixPath.to_str dest = Some (File content))
      by (by rewrite Hfs, lookup_insert_eq).
    exists (fs w1 :: new). split; [by rewrite Htrace, Ht|]. split.
    + apply Forall_cons. split; [|done]. right. eauto.
    + split; [|done]. intros info [= <-]. eauto.
Qed.

(** C10.  The outcome that [download_one] returns carries the URL it was
    called with; on success its detail is the text of the destination
    path, and on failure it is the message of the exception that the
    [try] body raised. *)
Theorem download_one_outcome (env : Env) (url dest_dir : string) (w : World)
    (o : Outcome) (w' : World) :
  download_one env url dest_dir w = (Returned o, w') ->
  exists dest temp,
    fst (plan_paths env url dest_dir w) = Returned (dest, temp)
    /\ fst (fst o) = url
    /\ ((o = (url, true, PosixPath.to_str dest)
         /\ fetch_and_publish env get_session url dest temp w = (Returned o, w'))
        \/ (exists e w1,
              fetch_and_publish env get_session url dest temp w = (Raised e, w1)
              /\ o = (url, false, message e))).
Proof.
  unfold download_one. intros H.
  apply bind_inv in H as [([dest temp] & w0 & Hplan & H)|[(e & _ & ?)|[_ ?]]];
    [|done..].
  exists dest, temp. rewrite Hplan. split; [done|].
  apply plan_paths_inv in Hplan as [-> _].
  unfold try_except in H.
  destruct (fetch_and_publish env get_session url dest temp w) as [rb w1] eqn:Hf.
  pose proof Hf as Hinv.
  apply fetch_and_publish_inv in Hinv as [(e & -> & _)|(-> & _)].
  - apply cleanup_inv in H as ([= ->] & _). split; [done|]. right. eauto.
  - injection H as <- <-. split; [done|]. by left.
Qed.

(** C4 (as amended).  When the [try] body of [download_one] raises, the
    call returns the failed outcome whose detail is the message of that
    exception, also when the removal of the temporary file fails; and if
    neither the existence test nor the removal of the temporary path is
    refused, no file is left at that path. *)
Theorem cleanup_after_failure (env : Env) (url dest_dir : string) (w : World)
    (dest temp : Path) (e : Exn) (w1 : World) :
  fst (plan_paths env url dest_dir w) = Returned (dest, temp) ->
  fetch_and_publish env get_session url dest temp w = (Raised e, w1) ->
  exists w',
    download_one env url dest_dir w = (Returned (url, false, message e), w')
    /\ (fault env (OpStat (PosixPath.to_str temp)) = None ->
        fault env (OpUnlink (PosixPath.to_str temp)) = None ->
        forall c, fs w' !! PosixPath.to_str temp <> Some (File c)).
Proof.
  intros Hplan Hf. unfold download_one, bind.
  destruct (plan_paths env url dest_dir w) as [rp w0] eqn:Hp.
  cbn [fst] in Hplan. subst rp.
  apply plan_paths_inv in Hp as [-> _].
  unfold try_except. rewrite Hf.
  destruct (cleanup env url temp e w1) as [r w'] eqn:Hc.
  apply cleanup_inv in Hc as (-> & _ & Hgone). eauto.
Qed.

Lemma atomic_publish_witness :
  fst (download_one (calm_env secret_seed0 pdf_server) "http://host/a.pdf" "pdfs" empty_pdfs)
    = Returned ("http://host/a.pdf", true, "pdfs/a.pdf")
  /\ exists new,
       trace (snd (download_one (calm_env secret_seed0 pdf_server)
                     "http://host/a.pdf" "pdfs" empty_pdfs)) = new ++ []
       /\ Forall (absent_or_complete (calm_env secret_seed0 pdf_server)
                    "http://host/a.pdf" "pdfs/a.pdf") new.
Proof.
  split; [vm_compute; reflexivity|].
  pose proof (atomic_publish (calm_env secret_seed0 pdf_server)
                "http://host/a.pdf" "pdfs" empty_pdfs _ _ (surjective_pairing _)) as H.
  assert (Hp : fst (plan_paths (calm_env secret_seed0 pdf_server)
                      "http://host/a.pdf" "pdfs" empty_pdfs)
               = Returned (mkPath "" ["pdfs"; "a.pdf"], mkPath "" ["pdfs"; "a.pdf.part"]))
    by (vm_compute; reflexivity).
  rewrite Hp in H. destruct H as (_ & _ & new & Ht & Hall & _).
  exists new. split; [exact Ht | exact Hall].
Defined.

Lemma download_one_outcome_witness :
  exists dest temp,
    fst (plan_paths (calm_env secret_seed0 cut_server) "http://host/a.pdf" "pdfs" empty_pdfs)
      = Returned (dest, temp)
    /\ PosixPath.to_str dest = "pdfs/a.pdf"
    /\ exists e w1,
         fetch_and_publish (calm_env secret_seed0 cut_server) get_session
           "http://host/a.pdf" dest temp empty_pdfs = (Raised e, w1)
         /\ ("http://host/a.pdf", false, "Connection broken: IncompleteRead")
            = ("http://host/a.pdf", false, message e).
Proof.
  destruct (download_one_outcome (calm_env secret_seed0 cut_server)
              "http://host/a.pdf" "pdfs" empty_pdfs
              ("http://host/a.pdf", false, "Connection broken: IncompleteRead")
              (snd (download_one (calm_env secret_seed0 cut_server)
                      "http://host/a.pdf" "pdfs" empty_pdfs)))
    as (dest & temp & Hp & _ & [[Ho _]|(e & w1 & Hf & Ho)]).
  { vm_compute. reflexivity. }
  { discriminate Ho. }
  exists dest, temp. split; [exact Hp|]. split.
  - vm_compute in Hp. injection Hp as <- _. reflexivity.
  - exists e, w1. split; [exact Hf | exact Ho].
Defined.

Lemma cleanup_after_failure_witness :
  exists w',
    download_one (calm_env secret_seed0 cut_server) "http://host/a.pdf" "pdfs" empty_pdfs
      = (Returned ("http://host/a.pdf", false, "Connection broken: IncompleteRead"), w')
    /\ forall c, fs w' !! "pdfs/a.pdf.part" <> Some (File c).
Proof.
  destruct (cleanup_after_failure (calm_env secret_seed0 cut_server)
              "http://host/a.pdf" "pdfs" empty_pdfs
              (mkPath "" ["pdfs"; "a.pdf"]) (mkPath "" ["pdfs"; "a.pdf.part"])
              incomplete_read
              (snd (fetch_and_publish (calm_env secret_seed0 cut_server) get_session
                      "http://host/a.pdf" (mkPath "" ["pdfs"; "a.pdf"])
                      (mkPath "" ["pdfs"; "a.pdf.part"]) empty_pdfs)))
    as (w' & Hrun & Hgone).
  { vm_compute. reflexivity. }
  { vm_compute. reflexivity. }
  exists w'. split; [exact Hrun|]. apply Hgone; reflexivity.
Defined.

(** C4, counterexample.  The disk turns read-only after the first chunk:
    the second write fails, the handler's attempt to remove the
    temporary file fails too and is passed over, and the call returns
    the failed outcome while "pdfs/a.pdf.part" stays behind with the
    first chunk in it. *)
Lemma part_file_left_behind :
  fst (download_one failing_disk_env "http://host/a.pdf" "pdfs" empty_pdfs)
    = Returned ("http://host/a.pdf", false, "[Errno 30] Read-only file system")
  /\ fs (snd (download_one failing_disk_env "http://host/a.pdf" "pdfs" empty_pdfs))
       !! "pdfs/a.pdf.part" = Some (File ["%"; "P"]%byte).
Proof. split; vm_compute; reflexivity. Qed.

(** C1, at the failing input.  The list holds "http://host/a.pdf.part"
    and then "http://host/a.pdf".  The first download is published at
    "pdfs/a.pdf.part" and reported as a success.  The second takes that
    very path as its temporary path, which line 71 opens without any
    test: the published file is seen empty, then with the first chunk of
    the other reply, then with all of it, and then it is gone, renamed to
    "pdfs/a.pdf".  Both outcomes report success; the file the first one
    names was observable in states in which it was neither absent nor
    the body of its reply, and it does not exist in the end. *)
Theorem published_file_overwritten (W : Z) :
  let env := calm_env secret_seed0 two_documents in
  let urls := ["http://host/a.pdf.part"; "http://host/a.pdf"] in
  let run := main env W "pdfs" urls [0%nat; 1%nat] empty_pdfs in
  fst run
  = Some (mkReport (effective_workers W urls)
            [("http://host/a.pdf.part", true, "pdfs/a.pdf.part");
             ("http://host/a.pdf", true, "pdfs/a.pdf")] [] Finished)
  /\ history "pdfs/a.pdf.part" (snd run)
     = [None; None;
        Some (File ["1"; "1"; "1"; "1"]%byte);
        Some (File []);
        Some (File ["%"; "P"]%byte);
        Some (File ["%"; "P"; "D"; "F"]%byte);
        None]
  /\ full_body env "http://host/a.pdf.part" ["1"; "1"; "1"; "1"]%byte
  /\ Exists (fun s => ~ absent_or_complete env "http://host/a.pdf.part" "pdfs/a.pdf.part" s)
       (trace (snd run))
  /\ fs (snd run) !! "pdfs/a.pdf.part" = None.
Proof.
  intros env urls run.
  split; [vm_compute; reflexivity|]. split; [vm_compute; reflexivity|]. split.
  { exists four_bytes. split; [vm_compute; reflexivity|].
    split; [cbn; lia|]. split; reflexivity. }
  split; [|vm_compute; reflexivity].
  assert (Ht : exists s0 s1 s2 s3 rest,
            trace (snd run) = s0 :: s1 :: s2 :: s3 :: rest
            /\ s3 !! "pdfs/a.pdf.part" = Some (File [])).
  { vm_compute. do 5 eexists. split; reflexivity. }
  destruct Ht as (s0 & s1 & s2 & s3 & rest & -> & Hs3).
  do 3 apply Exists_cons_tl. apply Exists_cons_hd.
  intros [Hnone|(c & Hc & resp & Hget & _ & _ & Hcontent)]; [congruence|].
  rewrite Hs3 in Hc. injection Hc as <-.
  vm_compute in Hget. injection Hget as <-. discriminate Hcontent.
Qed.

(** ** Errors outside the [try] *)

Lemma filename_from_url_raises (env : Env) :
  filename_from_url env "http://[" = inl UrlParse.invalid_ipv6.
Proof. reflexivity. Qed.

(** an error of [filename_from_url] leaves [download_one] as it is *)
Lemma download_one_name_error (env : Env) (url dest_dir : string) (w : World) (e : Exn) :
  filename_from_url env url = inl e ->
  download_one env url dest_dir w = (Raised e, w).
Proof.
  intros H. unfold download_one, plan_paths, bind at 1 2. by rewrite H.
Qed.

(** so does an error of the first existence test in [resolve_collision] *)
Lemma download_one_stat_error (env : Env) (url dest_dir nm : string) (w : World) (e : Exn) :
  filename_from_url env url = inr nm ->
  fault env (OpStat (PosixPath.to_str
                       (PosixPath.joinpath (PosixPath.of_str dest_dir) nm))) = Some e ->
  download_one env url dest_dir w = (Raised e, w).
Proof.
  intros Hn Hf. unfold download_one, plan_paths, bind at 1 2. rewrite Hn. cbn [lift ret].
  unfold bind at 1, resolve_collision, resolve_collision_fuel, bind at 1.
  unfold Fs.exists_, bind at 1, syscall. by rewrite Hf.
Qed.

(** C3, at the failing input.  [urlparse] rejects "http://[" with
    [ValueError], in [filename_from_url], which [download_one] calls
    before its [try]: the call raises instead of returning a failed
    outcome, whatever the environment, the directory and the state of
    the disk. *)
Theorem download_one_raises (env : Env) (dest_dir : string) (w : World) :
  download_one env "http://[" dest_dir w = (Raised UrlParse.invalid_ipv6, w).
Proof. apply download_one_name_error, filename_from_url_raises. Qed.

(** ** The dispatch loop *)

Lemma run_pool_length env dest_dir urls : forall w,
  length (fst (run_pool env dest_dir urls w)) = length urls.
Proof.
  induction urls as [|u urls IH]; intros w; [done|]. cbn [run_pool].
  destruct (download_one env u dest_dir w) as [r w1].
  specialize (IH w1). destruct (run_pool env dest_dir urls w1) as [rs w2].
  cbn [fst length] in *. by rewrite IH.
Qed.

(** when every future handed out holds an outcome, the loop reports one
    line for each and reaches the summary *)
Lemma collect_all_returned futures order : forall reported results,
  Forall (fun i => exists o, futures !! i = Some (Returned o)) order ->
  exists reported' results',
    collect futures order reported results = (reported', results', Finished)
    /\ length reported' = (length reported + length order)%nat.
Proof.
  induction order as [|i order IH]; intros reported results Hall.
  - exists reported, results. split; [done|]. simpl. lia.
  - apply Forall_cons in Hall as [[[[u ok] info] Hi] Hall]. cbn [collect].
    unfold Outcome in *. rewrite Hi.
    destruct ok.
    + destruct (IH (reported ++ [(u, true, info)]) results Hall) as (r' & s' & Hc & Hl).
      exists r', s'. split; [done|]. rewrite Hl, length_app. simpl. lia.
    + destruct (IH (reported ++ [(u, false, info)]) (results ++ [(u, info)]) Hall)
        as (r' & s' & Hc & Hl).
      exists r', s'. split; [done|]. rewrite Hl, length_app. simpl. lia.
Qed.

(** C2, at the failing input.  For the one-line list ["http://["] the
    task raises, [fut.result()] raises it again in [main], and the loop
    is left with no outcome reported for the request. *)
Theorem main_reports_no_outcome (env : Env) (W : Z) (dest_dir : string) (w : World) :
  main env W dest_dir ["http://["] [0%nat] w
    = (Some (mkReport (effective_workers W ["http://["]) [] []
               (Crashed UrlParse.invalid_ipv6)), w).
Proof.
  unfold main. cbn [run_pool].
  rewrite (download_one_name_error _ _ _ _ _ (filename_from_url_raises env)).
  reflexivity.
Qed.

(** in contrast, when every task returns, each request gets its line *)
Lemma main_reports_each_returned (env : Env) (W : Z) (dest_dir : string)
    (urls : list string) (order : list nat) (w : World) :
  urls <> [] ->
  order ≡ₚ seq 0 (length urls) ->
  Forall (fun r => exists o, r = Returned o) (fst (run_pool env dest_dir urls w)) ->
  exists report,
    fst (main env W dest_dir urls order w) = Some report
    /\ length (reported report) = length urls
    /\ ending report = Finished.
Proof.
  intros Hne Hperm Hall. unfold main. destruct urls as [|u us]; [done|].
  pose proof (run_pool_length env dest_dir (u :: us) w) as Hlen.
  destruct (run_pool env dest_dir (u :: us) w) as [futures w1]. cbn [fst] in *.
  destruct (collect_all_returned futures order [] []) as (rep & res & Hc & Hl).
  { apply Forall_forall. intros i Hi. rewrite Hperm in Hi.
    apply elem_of_seq in Hi.
    destruct (lookup_lt_is_Some_2 futures i) as [r Hr]; [lia|].
    rewrite Forall_forall in Hall.
    destruct (Hall r) as [o ->]; [by eapply list_elem_of_lookup_2|]. eauto. }
  rewrite Hc. eexists. split; [reflexivity|]. cbn [reported ending].
  split; [|done]. rewrite Hl. cbn [length]. by rewrite Hperm, length_seq.
Qed.

(** * Further properties *)

(** ** Reading the list of URLs *)

From Stdlib Require Import FunInd.

Functional Scheme lstrip_ws_ind := Induction for Text.lstrip_ws Sort Prop.

Section TextFacts.
Import Py Text.

Lemma str_app_cons c s t : String c s +:+ t = String c (s +:+ t).
Proof. reflexivity. Qed.

Lemma lstrip_ws_length s : (String.length (lstrip_ws s) <= String.length s)%nat.
Proof.
  functional induction (lstrip_ws s); cbn [String.length] in *; lia.
Qed.

(** what [lstrip] leaves is a tail of the string *)
Lemma lstrip_ws_tail s : exists a, s = a +:+ lstrip_ws s.
Proof.
  functional induction (lstrip_ws s);
    try (by exists EmptyString);
    destruct IHs0 as [a Ha].
  - exists (String c a). by rewrite str_app_cons, <- Ha.
  - exists (String c (String d a)). by rewrite !str_app_cons, <- Ha.
  - exists (String c (String d (String e3 a))). by rewrite !str_app_cons, <- Ha.
Qed.

Lemma lstrip_ws_idem s : lstrip_ws (lstrip_ws s) = lstrip_ws s.
Proof.
  functional induction (lstrip_ws s); try done; cbn [lstrip_ws];
    rewrite ?e0, ?e2, ?e5; done.
Qed.

(** a string of white space followed by anything *)
Lemma lstrip_ws_white a s : lstrip_ws a = "" -> lstrip_ws (a +:+ s) = lstrip_ws s.
Proof.
  functional induction (lstrip_ws a); try done; intros H;
    rewrite ?str_app_cons; cbn [lstrip_ws]; rewrite ?e0, ?e2, ?e5; auto.
Qed.

(** a line feed after a string that is not all white *)
Lemma lstrip_ws_feed s :
  lstrip_ws (s +:+ String "010" "")
  = if is_empty (lstrip_ws s) then "" else lstrip_ws s +:+ String "010" "".
Proof.
  functional induction (lstrip_ws s); try done; rewrite ?str_app_cons.
  - cbn [lstrip_ws]. by rewrite e0.
  - change ("" +:+ String "010" "") with (String "010" "").
    cbn [lstrip_ws is_empty]. rewrite e0.
    replace (space2 c "010") with false; [done|].
    unfold space2. cbn. by rewrite andb_false_r.
  - cbn [lstrip_ws]. by rewrite e0, e2.
  - change ("" +:+ String "010" "") with (String "010" "").
    cbn [lstrip_ws is_empty]. rewrite e0, e2.
    replace (space3 c d "010") with false; [done|].
    unfold space3. cbn. by rewrite !andb_false_r.
  - cbn [lstrip_ws]. by rewrite e0, e2, e5.
  - cbn [lstrip_ws is_empty]. by rewrite e0, e2, e5.
Qed.

Lemma lstrip_ws_fixed_head p t : lstrip_ws (p +:+ t) = p +:+ t -> lstrip_ws p = p.
Proof.
  functional induction (lstrip_ws p); try done; rewrite ?str_app_cons;
    cbn [lstrip_ws]; rewrite ?e0, ?e2, ?e5; intros H; exfalso;
    apply (f_equal String.length) in H; cbn [String.length] in H.
  - pose proof (lstrip_ws_length (s1 +:+ t)). lia.
  - pose proof (lstrip_ws_length (s2 +:+ t)). lia.
  - pose proof (lstrip_ws_length (s3 +:+ t)). lia.
Qed.

Lemma is_empty_true s : is_empty s = true -> s = "".
Proof. by destruct s. Qed.

(** what [rstrip] cuts off is white *)
Lemma rstrip_ws_head s : exists t, s = rstrip_ws s +:+ t /\ lstrip_ws t = "".
Proof.
  induction s as [|c s (t & Ht & Hw)]; [by exists EmptyString|].
  cbn [rstrip_ws]. destruct (is_empty (lstrip_ws (String c s))) eqn:E.
  - exists (String c s). split; [done|]. by apply is_empty_true.
  - exists t. split; [|done]. by rewrite str_app_cons, <- Ht.
Qed.

Lemma rstrip_ws_idem s : rstrip_ws (rstrip_ws s) = rstrip_ws s.
Proof.
  induction s as [|c s IH]; [done|].
  cbn [rstrip_ws]. destruct (is_empty (lstrip_ws (String c s))) eqn:E; [done|].
  cbn [rstrip_ws]. rewrite IH.
  destruct (is_empty (lstrip_ws (String c (rstrip_ws s)))) eqn:E'; [|done].
  destruct (rstrip_ws_head s) as (t & Ht & Hw).
  apply is_empty_true in E'.
  pose proof (lstrip_ws_white _ t E') as H.
  rewrite str_app_cons, <- Ht, Hw in H. by rewrite H in E.
Qed.

Lemma rstrip_ws_feed s : rstrip_ws (s +:+ String "010" "") = rstrip_ws s.
Proof.
  induction s as [|c s IH]; [done|].
  rewrite str_app_cons. cbn [rstrip_ws]. rewrite <- str_app_cons, lstrip_ws_feed.
  destruct (is_empty (lstrip_ws (String c s))) eqn:E; [done|].
  rewrite IH. by destruct (lstrip_ws (String c s)).
Qed.

(** [strip] does not see the line feed that ends a line *)
Lemma strip_feed s : strip (s +:+ String "010" "") = strip s.
Proof.
  unfold strip. rewrite lstrip_ws_feed.
  destruct (is_empty (lstrip_ws s)) eqn:E.
  - apply is_empty_true in E. by rewrite E.
  - apply rstrip_ws_feed.
Qed.

Lemma strip_idem s : strip (strip s) = strip s.
Proof.
  unfold strip.
  destruct (rstrip_ws_head (lstrip_ws s)) as (t & Ht & _).
  assert (H : lstrip_ws (rstrip_ws (lstrip_ws s)) = rstrip_ws (lstrip_ws s)).
  { apply (lstrip_ws_fixed_head _ t). rewrite <- Ht. apply lstrip_ws_idem. }
  rewrite H. apply rstrip_ws_idem.
Qed.

Lemma contains_strip c s : contains c s = false -> contains c (strip s) = false.
Proof.
  unfold strip. intros H.
  destruct (lstrip_ws_tail s) as [a Ha].
  destruct (rstrip_ws_head (lstrip_ws s)) as (t & Ht & _).
  rewrite Ha, contains_app in H. apply orb_false_elim in H as [_ H].
  rewrite Ht, contains_app in H. by apply orb_false_elim in H as [H _].
Qed.

Lemma split_breaks_clean s :
  Forall (fun p => contains "010" p = false /\ contains "013" p = false) (split_breaks s).
Proof.
  induction s as [|c s IH]; [by repeat constructor|]. cbn [split_breaks].
  destruct (is_break c) eqn:E; [by constructor|].
  unfold is_break in E. apply orb_false_elim in E as [E1 E2].
  rewrite Ascii.eqb_sym in E1. rewrite Ascii.eqb_sym in E2.
  destruct (split_breaks s) as [|p ps].
  - constructor; [|done]. cbn [contains]. by rewrite E1, E2.
  - apply Forall_cons in IH as [[H1 H2] Hps]. constructor; [|done].
    cbn [contains]. by rewrite E1, E2.
Qed.

Lemma split_breaks_cons s : exists p ps, split_breaks s = p :: ps.
Proof.
  destruct s as [|c s]; [by eexists _, _|]. cbn [split_breaks].
  destruct (is_break c); [by eexists _, _|].
  destruct (split_breaks s); by eexists _, _.
Qed.

(** cutting a text in two at a line break *)
Lemma split_breaks_app a b s :
  is_break b = true ->
  split_breaks (a +:+ String b s) = split_breaks a ++ split_breaks s.
Proof.
  intros Hb. induction a as [|c a IH].
  - change ("" +:+ String b s) with (String b s). cbn [split_breaks]. by rewrite Hb.
  - rewrite str_app_cons. cbn [split_breaks]. rewrite IH.
    destruct (is_break c); [done|].
    by destruct (split_breaks_cons a) as (p & ps & ->).
Qed.

Lemma split_breaks_whole s :
  contains "010" s = false -> contains "013" s = false -> split_breaks s = [s].
Proof.
  induction s as [|c s IH]; [done|]. cbn [contains split_breaks]. unfold is_break.
  rewrite (Ascii.eqb_sym c "010"), (Ascii.eqb_sym c "013").
  destruct (Ascii.eqb "010" c); [done|]. destruct (Ascii.eqb "013" c); [done|].
  intros H1 H2. by rewrite IH.
Qed.

Lemma stripped_cons l ls :
  stripped (l :: ls) = (if is_empty (strip l) then [] else [strip l]) ++ stripped ls.
Proof.
  unfold stripped. cbn [map]. destruct (is_empty (strip l)) eqn:E.
  - by rewrite filter_cons_False by (by rewrite E).
  - by rewrite filter_cons_True by done.
Qed.

Lemma stripped_app l1 l2 : stripped (l1 ++ l2) = stripped l1 ++ stripped l2.
Proof. unfold stripped. by rewrite map_app, filter_app. Qed.

(** The lines of a text and its pieces between line breaks differ by
    empty pieces and by the line feeds that end the lines; [strip] sees
    neither. *)
Lemma readlines_pieces n : forall s, (String.length s <= n)%nat ->
  match readlines s with
  | [] => s = ""
  | l :: ls =>
      exists p ps, split_breaks s = p :: ps
        /\ (l = p \/ l = p +:+ String "010" "")
        /\ stripped ls = stripped ps
  end.
Proof.
  induction n as [|n IH]; intros s Hn;
    [destruct s; [done | cbn [String.length] in Hn; lia]|].
  assert (Heq : forall t, (String.length t <= n)%nat ->
            stripped (readlines t) = stripped (split_breaks t)).
  { intros t Ht. specialize (IH t Ht).
    destruct (readlines t) as [|l ls]; [by subst t|].
    destruct IH as (p & ps & -> & Hl & Hls). rewrite !stripped_cons, Hls.
    destruct Hl as [->| ->]; [done|]. by rewrite strip_feed. }
  destruct s as [|c s]; [done|]. cbn [String.length] in Hn.
  cbn [readlines split_breaks]. unfold is_break.
  destruct (Ascii.eqb c "010") eqn:E1.
  { cbn [orb]. eexists _, _. split; [done|]. split; [by right|]. apply Heq. lia. }
  destruct (Ascii.eqb c "013") eqn:E2; cbn [orb].
  { eexists _, _. split; [done|]. split; [by right|].
    destruct s as [|d s]; [done|]. cbn [String.length] in Hn.
    destruct (Ascii.eqb d "010") eqn:E3; [|apply Heq; cbn [String.length]; lia].
    cbn [split_breaks]. unfold is_break. rewrite E3. cbn [orb].
    rewrite stripped_cons. cbn [strip lstrip_ws rstrip_ws is_empty app]. apply Heq. lia. }
  specialize (IH s ltac:(lia)).
  destruct (readlines s) as [|l ls].
  - subst s. eexists _, _. split; [done|]. split; [by left|done].
  - destruct IH as (p & ps & -> & Hl & Hls). eexists _, _. split; [done|].
    split; [|done]. destruct Hl as [->| ->]; [by left|by right].
Qed.

Lemma load_urls_pieces s : load_urls s = stripped (split_breaks s).
Proof.
  unfold load_urls. pose proof (readlines_pieces _ s (le_n _)) as H.
  destruct (readlines s) as [|l ls]; [by subst s|].
  destruct H as (p & ps & -> & Hl & Hls). rewrite !stripped_cons, Hls.
  destruct Hl as [->| ->]; [done|]. by rewrite strip_feed.
Qed.

Lemma load_urls_at_break a b s :
  is_break b = true -> load_urls (a +:+ String b s) = load_urls a ++ load_urls s.
Proof.
  intros Hb. by rewrite !load_urls_pieces, split_breaks_app, stripped_app.
Qed.

Lemma load_urls_clean_line u : clean_line u -> load_urls u = [u].
Proof.
  intros (Hne & Hs & H1 & H2).
  rewrite load_urls_pieces, split_breaks_whole, stripped_cons by done.
  rewrite Hs. by destruct u.
Qed.

End TextFacts.

(** X1.  Every URL that line 104 puts in the list is a line of the file
    without its surrounding white space: it is not empty, [strip] leaves
    it as it is, and it holds no line feed and no carriage return. *)
Theorem load_urls_clean (text u : string) :
  u ∈ Text.load_urls text -> Text.clean_line u.
Proof.
  rewrite load_urls_pieces. unfold Text.stripped. intros H.
  apply list_elem_of_filter in H as [Hne H].
  apply list_elem_of_fmap in H as (p & -> & Hp).
  pose proof (split_breaks_clean text) as Hc. rewrite Forall_forall in Hc.
  destruct (Hc p Hp) as [H1 H2].
  split; [by intros E; rewrite E in Hne|]. split; [apply strip_idem|].
  split; by apply contains_strip.
Qed.

Lemma load_urls_clean_witness :
  Text.clean_line "http://host/a b.pdf".
Proof.
  apply (load_urls_clean (String "009" " http://host/a b.pdf  " +:+ String "013" (String "010" ""))).
  vm_compute. left.
Defined.

(** X2.  A list of URLs written to a file one per line is read back as
    it was, provided each is a clean line: not empty, without white space
    at either end and without a line break inside. *)
Theorem load_urls_unlines (l : list string) :
  Forall Text.clean_line l -> Text.load_urls (Text.unlines l) = l.
Proof.
  induction 1 as [|u l Hu Hl IH]; [done|].
  cbn [Text.unlines]. rewrite load_urls_at_break by done.
  by rewrite load_urls_clean_line, IH.
Qed.

Lemma load_urls_unlines_witness :
  Text.load_urls (Text.unlines ["http://host/a.pdf"; "http://host/b c.pdf"])
  = ["http://host/a.pdf"; "http://host/b c.pdf"].
Proof.
  apply load_urls_unlines.
  repeat (constructor; [repeat split; [discriminate | vm_compute; reflexivity ..]|]).
  constructor.
Defined.

(** X3.  "\n", "\r" and "\r\n" are the same to line 104: the URLs of two
    texts joined by any of them are the URLs of the first followed by
    those of the second.  So blank lines and the kind of line end in the
    file do not matter, and the order of the lines is kept. *)
Theorem load_urls_app (a b : string) :
  Text.load_urls (a +:+ String "010" b) = Text.load_urls a ++ Text.load_urls b
  /\ Text.load_urls (a +:+ String "013" b) = Text.load_urls a ++ Text.load_urls b
  /\ Text.load_urls (a +:+ String "013" (String "010" b))
     = Text.load_urls a ++ Text.load_urls b.
Proof.
  split; [by apply load_urls_at_break|]. split; [by apply load_urls_at_break|].
  rewrite load_urls_at_break by done.
  pose proof (load_urls_at_break "" "010" b eq_refl) as H.
  change ("" +:+ String "010" b) with (String "010" b) in H. by rewrite H.
Qed.

(** ** [get_session] *)

Section SessionFacts.

Lemma consistent_no_sessions : consistent no_sessions.
Proof.
  split; [done|]. split; intros *; cbn [no_sessions session_of];
    by rewrite lookup_empty.
Qed.

Lemma get_session_in_spec tid tl s tl' :
  consistent tl ->
  get_session_in tid tl = (s, tl') ->
  consistent tl'
  /\ session_of tl ⊆ session_of tl'
  /\ session_of tl' !! tid = Some s
  /\ dom (session_of tl') = dom (session_of tl) ∪ {[tid]}.
Proof.
  intros (Hsize & Hold & Hinj). unfold get_session_in.
  destruct (session_of tl !! tid) as [s0|] eqn:E; intros [= <- <-].
  - split; [done|]. split; [done|]. split; [done|].
    apply elem_of_dom_2 in E. symmetry. rewrite (comm_L (∪)).
    by apply subseteq_union_1_L, singleton_subseteq_l.
  - cbn [session_of sessions_created]. split; [|split; [|split]].
    + split; [|split]; cbn [session_of sessions_created].
      * rewrite map_size_insert_None by done. by rewrite Hsize.
      * intros t s. rewrite lookup_insert_Some.
        intros [[_ <-]|[_ Ht]]; [cbn; split; [lia|done]|].
        destruct (Hold _ _ Ht). split; [lia|done].
      * intros t1 t2 s1 s2. rewrite !lookup_insert_Some.
        intros [[<- <-]|[? H1]] [[<- <-]|[? H2]]; cbn [session_rank]; intros Hr;
          [done| | |by eapply Hinj].
        -- destruct (Hold _ _ H2). lia.
        -- destruct (Hold _ _ H1). lia.
    + by apply insert_subseteq.
    + by rewrite lookup_insert_eq.
    + by rewrite dom_insert_L, (comm_L (∪)).
Qed.

Lemma get_session_calls_spec tids : forall tl ss tl',
  consistent tl ->
  get_session_calls tids tl = (ss, tl') ->
  consistent tl'
  /\ session_of tl ⊆ session_of tl'
  /\ dom (session_of tl') = dom (session_of tl) ∪ list_to_set tids
  /\ length ss = length tids
  /\ forall i a, tids !! i = Some a -> ss !! i = session_of tl' !! a.
Proof.
  induction tids as [|tid tids IH]; intros tl ss tl' Hc; cbn [get_session_calls].
  - intros [= <- <-]. split; [done|]. split; [done|].
    split; [by rewrite list_to_set_nil, (right_id_L ∅ (∪))|].
    split; [done|]. intros i a. by rewrite lookup_nil.
  - destruct (get_session_in tid tl) as [s tl1] eqn:E1.
    destruct (get_session_calls tids tl1) as [ss1 tl2] eqn:E2.
    intros [= <- <-].
    destruct (get_session_in_spec _ _ _ _ Hc E1) as (Hc1 & Hsub1 & Hs & Hdom1).
    destruct (IH _ _ _ Hc1 E2) as (Hc2 & Hsub2 & Hdom2 & Hlen & Hss).
    split; [done|]. split; [by etrans|].
    split; [by rewrite Hdom2, Hdom1, list_to_set_cons, (assoc_L (∪))|]. split; [by cbn; rewrite Hlen|].
    intros [|i] a; cbn [lookup list_lookup].
    + intros [= <-]. symmetry. by eapply lookup_weaken.
    + apply Hss.
Qed.

End SessionFacts.

(** X4.  Calls of [get_session()], in any order and by any threads,
    starting with no session made: a thread gets the same session object
    at each of its calls, two threads never get the same object, as many
    sessions are made as there are threads that called, and each is
    configured as [create_session()] does. *)
Theorem get_session_one_per_thread (tids : list nat) :
  let '(ss, tl) := get_session_calls tids no_sessions in
  length ss = length tids
  /\ (forall i j a b s t,
        tids !! i = Some a -> tids !! j = Some b ->
        ss !! i = Some s -> ss !! j = Some t ->
        (s = t <-> a = b))
  /\ sessions_created tl = size (list_to_set tids : gset nat)
  /\ Forall (fun s => session_config s = create_session) ss.
Proof.
  destruct (get_session_calls tids no_sessions) as [ss tl] eqn:E.
  destruct (get_session_calls_spec _ _ _ _ consistent_no_sessions E)
    as ((Hsize & Hold & Hinj) & _ & Hdom & Hlen & Hss).
  split; [done|]. split; [|split].
  - intros i j a b s t Ha Hb Hs Ht.
    rewrite (Hss _ _ Ha) in Hs. rewrite (Hss _ _ Hb) in Ht. split.
    + intros <-. by eapply Hinj.
    + intros <-. congruence.
  - rewrite <- Hsize, <- size_dom, Hdom. cbn [no_sessions session_of].
    by rewrite dom_empty_L, (left_id_L ∅ (∪)).
  - apply Forall_lookup. intros i s Hs.
    destruct (lookup_lt_is_Some_2 tids i) as [a Ha].
    { rewrite <- Hlen. by eapply lookup_lt_Some. }
    rewrite (Hss _ _ Ha) in Hs. by destruct (Hold _ _ Hs).
Qed.

(** ** The parameters of [create_session] *)

(** X5.  A session made by [create_session(retries, backoff)] sends one
    GET at least once and at most [retries] + 1 times (once if [retries]
    is zero or less), pauses once between two attempts, and the reply it
    returns is the one to its last attempt. *)
Theorem create_session_with_attempts (env : Env) (url : string) (retries : Z)
    (backoff : Q) (res : Res Response) (n : nat) (ps : list Q) :
  session_get_run env (create_session_with retries backoff) url = (res, n, ps) ->
  res <> Running
  /\ (1 <= n <= Z.to_nat retries + 1)%nat
  /\ length ps = (n - 1)%nat
  /\ forall resp, res = Returned resp -> server env url (n - 1) = Replied resp.
Proof.
  intros Hrun. unfold session_get_run in Hrun.
  cbn [create_session_with max_retries total] in Hrun.
  pose proof (urlopen_spec env url (S (Z.to_nat retries))
                (max_retries (create_session_with retries backoff)) 0 []) as H.
  cbn [create_session_with max_retries total] in H. rewrite Hrun in H.
  destruct H as (Hres & Hn & Hlast & new & Hps & Hlen & _); [lia|].
  cbn [app] in Hps. subst new. cbn [create_session_with max_retries total] in Hn.
  split; [done|]. split; [lia|]. split; [lia|]. by intros resp ->.
Qed.

Lemma create_session_with_attempts_witness :
  session_get_run (calm_env secret_seed0 always_503) (create_session_with 2 (3 # 1))
    "http://host/a.pdf"
  = (Raised (Urllib3.max_retry_error "http://host/a.pdf" (Urllib3.too_many 503)),
     3%nat, [0 # 1; 6 # 1]%Q)
  /\ (1 <= 3 <= Z.to_nat 2 + 1)%nat.
Proof.
  assert (H : session_get_run (calm_env secret_seed0 always_503)
                (create_session_with 2 (3 # 1)) "http://host/a.pdf"
              = (Raised (Urllib3.max_retry_error "http://host/a.pdf" (Urllib3.too_many 503)),
                 3%nat, [0 # 1; 6 # 1]%Q))
    by (vm_compute; reflexivity).
  split; [exact H|].
  exact (proj1 (proj2 (create_session_with_attempts _ _ _ _ _ _ _ H))).
Defined.

(** X6.  A reply with an HTTP error status (400 to 599) that the retry
    policy does not retry, for instance 404: the request is sent once,
    [raise_for_status] raises, and [download_one] returns the failed
    outcome with the message of that error, whatever is on disk.  No
    file is opened: the call changes nothing away from the temporary
    path, and nothing at all if nothing was there.  A file that was
    lying at the temporary path is removed by the handler, unless the
    existence test or the removal is refused. *)
Theorem download_one_http_error (env : Env) (url dest_dir : string) (w : World)
    (dest temp : Path) (resp : Response) :
  fst (plan_paths env url dest_dir w) = Returned (dest, temp) ->
  server env url 0 = Replied resp ->
  Urllib3.is_retry (max_retries get_session) "GET"
    (status_code resp) (has_retry_after resp) = false ->
  400 <= status_code resp < 600 ->
  session_get_run env get_session url = (Returned resp, 1%nat, [])
  /\ exists e w',
       raise_for_status resp w = (Raised e, w)
       /\ download_one env url dest_dir w = (Returned (url, false, message e), w')
       /\ only_at (PosixPath.to_str temp) w w'
       /\ (fs w !! PosixPath.to_str temp = None -> w' = w)
       /\ (fault env (OpStat (PosixPath.to_str temp)) = None ->
           fault env (OpUnlink (PosixPath.to_str temp)) = None ->
           forall c, fs w' !! PosixPath.to_str temp <> Some (File c)).
Proof.
  intros Hplan Hserver Hretry Hstatus.
  assert (Hget : session_get_run env get_session url = (Returned resp, 1%nat, [])).
  { unfold session_get_run.
    change (Z.to_nat (total (max_retries get_session))) with 5%nat.
    cbn [Urllib3.urlopen]. by rewrite Hserver, Hretry. }
  split; [done|].
  destruct (raise_for_status resp w) as [rs w0] eqn:Hrs.
  pose proof (raise_for_status_inv _ _ _ _ Hrs) as (-> & Hrun & Hok).
  destruct rs as [[]|e|]; [by destruct Hok|clear Hok|done].
  assert (Hdl : download_one env url dest_dir w = cleanup env url temp e w).
  { unfold download_one, bind at 1.
    destruct (plan_paths env url dest_dir w) as [rp w1] eqn:Hp.
    cbn [fst] in Hplan. subst rp.
    apply plan_paths_inv in Hp as [-> _].
    unfold try_except, fetch_and_publish, bind at 1, session_get.
    rewrite Hget. cbn [fst]. unfold bind at 1, bind at 1. by rewrite Hrs. }
  destruct (cleanup env url temp e w) as [r w'] eqn:Hc.
  pose proof (cleanup_inv _ _ _ _ _ _ _ Hc) as (-> & Honly & Hgone).
  exists e, w'. split; [done|]. split; [done|]. split; [done|]. split; [|done].
  intros Hfree. revert Hc.
  unfold cleanup, try_pass, try_except, bind at 1, bind at 1, Fs.exists_, bind at 1,
    syscall.
  destruct (fault env _); [by intros [= <-]|]. cbn [ret get_fs bind].
  rewrite Hfree. rewrite bool_decide_false by (by intros [? ?]). by intros [= <-].
Qed.

Lemma download_one_http_error_witness :
  exists w',
    download_one (calm_env secret_seed0 server_404) "http://host/a.pdf" "pdfs" stale_pdfs
    = (Returned ("http://host/a.pdf", false,
                 "404 Client Error: Not Found for url: http://host/a.pdf"), w')
    /\ forall c, fs w' !! "pdfs/a.pdf.part" <> Some (File c).
Proof.
  destruct (download_one_http_error (calm_env secret_seed0 server_404)
              "http://host/a.pdf" "pdfs" stale_pdfs
              (mkPath "" ["pdfs"; "a.pdf"]) (mkPath "" ["pdfs"; "a.pdf.part"]) not_found)
    as (_ & e & w' & He & Hd & _ & _ & Hgone);
    [vm_compute; reflexivity | reflexivity | vm_compute; reflexivity
    | split; vm_compute; congruence |].
  vm_compute in He. injection He as <-.
  exists w'. split; [exact Hd|]. apply Hgone; reflexivity.
Defined.

(** ** [filename_from_url]: the query string *)

Section QueryFacts.
Import Py UrlParse.

Lemma contains_before_same c s : contains c (before c s) = false.
Proof.
  induction s as [|d s IH]; [done|]. cbn [before].
  destruct (Ascii.eqb c d) eqn:E; [done|]. cbn [contains]. by rewrite E.
Qed.

Lemma contains_before c a s : contains c s = false -> contains c (before a s) = false.
Proof.
  induction s as [|d s IH]; [done|]. cbn [before contains].
  destruct (Ascii.eqb c d) eqn:E; [done|]. intros H.
  destruct (Ascii.eqb a d); [done|]. cbn [contains]. rewrite E. auto.
Qed.

Lemma contains_upto_last c a s : contains c s = false -> contains c (upto_last a s) = false.
Proof.
  induction s as [|d s IH]; [done|]. cbn [upto_last contains].
  destruct (Ascii.eqb c d) eqn:E; [done|]. intros H.
  destruct (contains a s); [cbn [contains]; rewrite E; auto|].
  destruct (Ascii.eqb a d); [|done]. cbn [contains]. by rewrite E.
Qed.

Lemma before_absent c s : contains c s = false -> before c s = s.
Proof.
  induction s as [|d s IH]; [done|]. cbn [before contains].
  destruct (Ascii.eqb c d); [done|]. intros H. by rewrite IH.
Qed.

(** the path that [urlsplit] returns has lost the query and the fragment *)
Lemma urlsplit_path_clean env url scheme netloc path :
  urlsplit env url = inr (scheme, netloc, path) ->
  contains "?" path = false /\ contains "#" path = false.
Proof.
  unfold urlsplit.
  destruct (if _ && _ && _ && _ then _ else _) as [sch u].
  destruct (if starts_with_2slash u then _ else _) as [e|[nl rest]]; [done|].
  destruct (_checknetloc env nl); [done|]. intros [= _ _ <-].
  assert (H : contains "#" (if contains "#" rest then before "#" rest else rest) = false).
  { destruct (contains "#" rest) eqn:E; [apply contains_before_same | done]. }
  destruct (contains "?" (if contains "#" rest then before "#" rest else rest)) eqn:E.
  - split; [apply contains_before_same | by apply contains_before].
  - done.
Qed.

Lemma splitparams_clean c url :
  contains c url = false -> contains c (_splitparams url) = false.
Proof.
  intros H. unfold _splitparams.
  destruct (contains "/" url); [|by apply contains_before].
  destruct (contains ";" (after_last "/" url)); [|done].
  rewrite contains_app, contains_upto_last by done.
  by apply contains_before, contains_after_last.
Qed.

Lemma urlparse_path_clean env url path :
  urlparse_path env url = inr path ->
  contains "?" path = false /\ contains "#" path = false.
Proof.
  unfold urlparse_path.
  destruct (urlsplit env url) as [e|[[scheme netloc] p]] eqn:Hs; [done|].
  apply urlsplit_path_clean in Hs as [H1 H2].
  destruct (_ && _); intros [= <-]; [|done].
  split; by apply splitparams_clean.
Qed.

End QueryFacts.

(** X7.  The path that [urlparse] returns holds no "?" and no "#": the
    query string and the fragment are gone before [filename_from_url]
    looks at the name, so [split("?")] on line 42 changes nothing.  The
    name is the last segment of the path with its percent escapes
    decoded and "/" and "\" replaced; it depends on the hash secret only
    when that segment is empty. *)
Theorem filename_from_url_query_free (env : Env) (url path : string) :
  UrlParse.urlparse_path env url = inr path ->
  Py.contains "?" path = false /\ Py.contains "#" path = false
  /\ Py.before "?" (basename path) = basename path
  /\ (unquote (basename path) <> "" ->
      filename_from_url env url
      = inr (Py.replace "\" "_" (Py.replace "/" "_" (unquote (basename path))))).
Proof.
  intros Hp. destruct (urlparse_path_clean _ _ _ Hp) as [Hq Hf].
  assert (Hb : Py.before "?" (basename path) = basename path).
  { apply before_absent. by apply contains_after_last. }
  split; [done|]. split; [done|]. split; [done|].
  intros Hne. unfold filename_from_url. rewrite Hp, Hb.
  by destruct (unquote (basename path)).
Qed.

Lemma filename_from_url_query_free_witness :
  filename_from_url (calm_env secret_seed0 no_server)
    "http://host/docs/r%C3%A9sum%C3%A9.pdf;v=1?download=1#page=2"
  = inr (String "r" (String "195" (String "169" (String "s" (String "u" (String "m"
          (String "195" (String "169" ".pdf")))))))).
Proof.
  destruct (filename_from_url_query_free (calm_env secret_seed0 no_server)
              "http://host/docs/r%C3%A9sum%C3%A9.pdf;v=1?download=1#page=2"
              "/docs/r%C3%A9sum%C3%A9.pdf")
    as (_ & _ & _ & H); [vm_compute; reflexivity|].
  rewrite H; [vm_compute; reflexivity | vm_compute; discriminate].
Defined.

(** ** Paths and their text *)

Section PathFacts.
Import Py PosixPath.

Lemma splitroot_root s :
  fst (splitroot s) = "" \/ fst (splitroot s) = "/" \/ fst (splitroot s) = "//".
Proof.
  destruct s as [|c s]; [by left|].
  destruct c as [[] [] [] [] [] [] [] []]; try (by left).
  cbn [splitroot]. destruct (_ =? 2)%nat; auto.
Qed.

Lemma splitroot_relative s :
  match s with String c _ => Ascii.eqb c "/" = false | EmptyString => True end ->
  splitroot s = ("", s).
Proof.
  destruct s as [|c s]; [done|].
  destruct c as [[] [] [] [] [] [] [] []]; done.
Qed.

Lemma lstrip_relative s :
  match s with String c _ => Ascii.eqb c "/" = false | EmptyString => True end ->
  lstrip is_slash s = s.
Proof. destruct s as [|c s]; [done|]. cbn [lstrip]. unfold is_slash. by intros ->. Qed.

(** the text of a list of names does not begin with "/" *)
Lemma join_slash_relative l :
  forallb valid_name l = true ->
  match join_slash l with String c _ => Ascii.eqb c "/" = false | EmptyString => True end.
Proof.
  destruct l as [|x l]; [done|]. cbn [forallb]. intros H.
  apply andb_prop in H as [Hx _]. unfold valid_name in Hx.
  apply andb_prop in Hx as [Hx Hs]. apply negb_true_iff in Hs.
  destruct x as [|c x]; [done|]. cbn [contains] in Hs.
  destruct l; cbn [join_slash]; rewrite ?str_app_cons; rewrite Ascii.eqb_sym;
    by destruct (Ascii.eqb "/" c).
Qed.

Lemma split_slash_app x s :
  contains "/" x = false -> split_slash (x +:+ String "/" s) = x :: split_slash s.
Proof.
  induction x as [|c x IH]; [done|]. cbn [contains]. rewrite str_app_cons.
  cbn [split_slash]. rewrite (Ascii.eqb_sym c "/").
  destruct (Ascii.eqb "/" c); [done|]. intros H. by rewrite IH.
Qed.

Lemma split_join_slash l :
  forallb valid_name l = true ->
  filter (fun x => keep_component x = true) (split_slash (join_slash l)) = l.
Proof.
  induction l as [|x l IH]; [done|]. cbn [forallb]. intros H.
  apply andb_prop in H as [Hx Hl]. pose proof Hx as Hx'. unfold valid_name in Hx.
  apply andb_prop in Hx as [Hk Hs]. apply negb_true_iff in Hs.
  destruct l as [|y l].
  - cbn [join_slash]. rewrite split_slash_leaf by done.
    by rewrite filter_cons_True, filter_nil.
  - change (join_slash (x :: y :: l)) with (x +:+ String "/" (join_slash (y :: l))).
    rewrite split_slash_app by done.
    rewrite filter_cons_True by done. by rewrite IH.
Qed.

(** a path that [pathlib] has built is read back from its text *)
Lemma parse_to_str p :
  root p = "" \/ root p = "/" \/ root p = "//" ->
  well_formed p = true ->
  parse (to_str p) = p.
Proof.
  destruct p as [r l]. unfold well_formed. cbn [root names]. intros Hr Hl.
  pose proof (join_slash_relative l Hl) as Hrel.
  pose proof (split_join_slash l Hl) as Hsplit.
  unfold parse, to_str. cbn [root names].
  destruct Hr as [->|[->| ->]].
  - destruct l as [|x l]; [done|].
    change ("" +:+ join_slash (x :: l)) with (join_slash (x :: l)).
    by rewrite splitroot_relative, Hsplit.
  - change ("/" +:+ join_slash l) with (String "/" (join_slash l)).
    cbn [splitroot lstrip is_slash]. unfold is_slash.
    change (Ascii.eqb "/" "/") with true. cbv iota.
    fold is_slash. rewrite lstrip_relative by done. cbn [String.length].
    replace (S _ - _ =? 2)%nat with false; [by rewrite Hsplit|].
    symmetry. apply Nat.eqb_neq. lia.
  - change ("//" +:+ join_slash l) with (String "/" (String "/" (join_slash l))).
    cbn [splitroot lstrip is_slash]. unfold is_slash.
    change (Ascii.eqb "/" "/") with true. cbv iota.
    fold is_slash. rewrite lstrip_relative by done. cbn [String.length].
    replace (S (S _) - _ =? 2)%nat with true; [by rewrite Hsplit|].
    symmetry. apply Nat.eqb_eq. lia.
Qed.

Lemma parse_root s : root (parse s) = "" \/ root (parse s) = "/" \/ root (parse s) = "//".
Proof.
  unfold parse. pose proof (splitroot_root s) as H.
  by destruct (splitroot s) as [r rel].
Qed.

Lemma of_str_to_str s : of_str (to_str (of_str s)) = of_str s.
Proof. apply parse_to_str; [apply parse_root | apply parse_well_formed]. Qed.

End PathFacts.

(** X8.  [main] hands the output directory to the tasks as text,
    [str(Path(args.output))], and [download_one] parses it again: the
    path read back is the path [main] had, so a task works in the same
    directory as if it had been given the argument itself. *)
Theorem dest_dir_round_trip (output : string) :
  PosixPath.of_str (PosixPath.to_str (PosixPath.of_str output)) = PosixPath.of_str output
  /\ forall env url w,
       download_one env url (PosixPath.to_str (PosixPath.of_str output)) w
       = download_one env url output w.
Proof.
  split; [apply of_str_to_str|]. intros env url w.
  unfold download_one, plan_paths. by rewrite of_str_to_str.
Qed.

(** ** [resolve_collision], errors included *)

Section CollisionCases.
Import PosixPath.
Context (env : Env) (path : Path).
Context (Hwf : well_formed path = true).

Lemma resolve_collision_loop_cases fuel : forall i w r w',
  1 <= i ->
  resolve_collision_loop env fuel path (stem path) (suffix path) i w = (r, w') ->
  w' = w
  /\ match r with
     | Returned q =>
         exists m, i <= m < i + Z.of_nat fuel
           /\ q = candidate path m
           /\ fs w !! to_str q = None
           /\ forall k, i <= k < m -> is_Some (fs w !! to_str (candidate path k))
     | Raised e =>
         (exists p, fault env (OpStat p) = Some e)
         \/ (name path = "" /\ kind e = ValueError)
     | Running =>
         forall k, i <= k < i + Z.of_nat fuel ->
           is_Some (fs w !! to_str (candidate path k))
     end.
Proof.
  induction fuel as [|fuel IH]; intros i w r w' Hi; cbn [resolve_collision_loop].
  - intros [= <- <-]. split; [done|]. intros k Hk. lia.
  - intros H.
    apply bind_inv in H as [(c & w1 & Hc & H)|[(e & Hc & ->)|[Hc ->]]];
      apply lift_inv in Hc as [-> Hc]; [| |by destruct (with_name _ _)].
    + destruct (with_name _ _) as [|c'] eqn:Hw; [done|]. injection Hc as ->.
      apply with_name_inv in Hw as [Hname ->]. fold (candidate path i) in H.
      apply bind_inv in H as [(b & w1 & Hex & H)|[(e & Hex & ->)|[Hex ->]]];
        apply exists_inv in Hex as [-> Hex].
      * destruct Hex as [[_ [= ->]]|(e & _ & ?)]; [|done].
        destruct (bool_decide _) eqn:Hb; cbn [negb] in H.
        -- apply bool_decide_eq_true in Hb.
           apply IH in H as [-> H]; [|lia]. split; [done|].
           destruct r as [q|e|].
           ++ destruct H as (m & Hm & -> & Hfree & Hbusy).
              exists m. split; [lia|]. split; [done|]. split; [done|].
              intros k Hk. destruct (decide (k = i)) as [->|]; [done|].
              apply Hbusy. lia.
           ++ done.
           ++ intros k Hk. destruct (decide (k = i)) as [->|]; [done|].
              apply H. lia.
        -- injection H as <- <-. split; [done|].
           exists i. split; [lia|]. split; [done|].
           apply bool_decide_eq_false in Hb.
           split; [by apply eq_None_not_Some|]. intros k Hk. lia.
      * destruct Hex as [[_ ?]|(e' & Hf & [= <-])]; [done|]. split; [done|].
        left. eauto.
      * by destruct Hex as [[_ ?]|(e' & _ & ?)].
    + split; [done|]. right.
      unfold with_name in Hc. destruct (name path) eqn:En.
      * cbn [Py.is_empty] in Hc. by injection Hc as ->.
      * exfalso. cbn [Py.is_empty] in Hc.
        assert (Hv : valid_name (name path) = true)
          by (apply name_valid; [done|by rewrite En]).
        pose proof (candidate_valid path i Hv Hi) as Hcv.
        by rewrite Hcv in Hc.
Qed.

(** the loop of [resolve_collision] returns only for a path with a name *)
Lemma resolve_collision_loop_named fuel base suffix i w q w' :
  resolve_collision_loop env fuel path base suffix i w = (Returned q, w') ->
  name path <> "".
Proof.
  destruct fuel as [|fuel]; cbn [resolve_collision_loop]; [done|]. intros H.
  apply bind_inv in H as [(c & w1 & Hc & _)|[(e & _ & ?)|[_ ?]]]; [|done..].
  apply lift_inv in Hc as [_ Hc].
  destruct (with_name _ _) as [|c'] eqn:Hw; [done|].
  by apply with_name_inv in Hw as [Hname _].
Qed.

(** the path returned is the argument or one of its numbered siblings *)
Lemma resolve_collision_sibling w q w' :
  resolve_collision env path w = (Returned q, w') ->
  q = path \/ exists i, 1 <= i /\ q = candidate path i.
Proof.
  unfold resolve_collision, resolve_collision_fuel. intros H.
  apply bind_inv in H as [(b & w1 & Hex & H)|[(e & _ & ?)|[_ ?]]]; [|done..].
  apply exists_inv in Hex as [-> _].
  destruct (negb b); [injection H as <- _; by left|].
  apply resolve_collision_loop_cases in H as [_ (m & Hm & -> & _)]; [|done].
  right. exists m. split; [lia|done].
Qed.

End CollisionCases.

(** X9.  Every way a call of [resolve_collision] can end, whatever the
    operating system answers.  The call changes nothing on disk.  If it
    returns, nothing exists at the path returned, which is the argument
    itself, or else (the argument exists) the first free one of its
    siblings stem_i+suffix, i = 1, 2, ..., found within one round more
    than the file system has entries.  If it raises, the error is that
    of an existence test, or [ValueError] from [with_name] because the
    path has no name (as "." has) and exists.  It does not loop for
    ever. *)
Theorem resolve_collision_cases (env : Env) (path : Path) (w : World)
    (r : Res Path) (w' : World) :
  well_formed path = true ->
  resolve_collision env path w = (r, w') ->
  w' = w
  /\ match r with
     | Returned q =>
         fs w !! PosixPath.to_str q = None
         /\ (q = path
             \/ (is_Some (fs w !! PosixPath.to_str path)
                 /\ exists i, 1 <= i <= Z.of_nat (S (size (fs w)))
                      /\ q = candidate path i
                      /\ forall j, 1 <= j < i ->
                           is_Some (fs w !! PosixPath.to_str (candidate path j))))
     | Raised e =>
         (exists p, fault env (OpStat p) = Some e)
         \/ (PosixPath.name path = "" /\ is_Some (fs w !! PosixPath.to_str path)
             /\ kind e = ValueError)
     | Running => False
     end.
Proof.
  intros Hwf. unfold resolve_collision, resolve_collision_fuel. intros H.
  apply bind_inv in H as [(b & w1 & Hex & H)|[(e & Hex & ->)|[Hex ->]]];
    apply exists_inv in Hex as [-> Hex].
  - destruct Hex as [[_ [= ->]]|(e & _ & ?)]; [|done].
    destruct (bool_decide _) eqn:Hb; cbn [negb] in H.
    + apply bool_decide_eq_true in Hb.
      apply resolve_collision_loop_cases in H as [-> H]; [|done..].
      split; [done|]. destruct r as [q|e|].
      * destruct H as (m & Hm & -> & Hfree & Hbusy). split; [done|].
        right. split; [done|]. exists m. split; [lia|]. split; [done|].
        intros j Hj. apply Hbusy. lia.
      * destruct H as [H|[Hn He]]; [by left|]. right. done.
      * destruct (free_key_exists (fs w) (fun i => PosixPath.to_str (candidate path i)))
          as (j & Hj & Hfree).
        { intros a b Hab. apply to_str_sibling_inj in Hab.
          by apply candidate_name_inj in Hab. }
        destruct (H j) as [n Hn]; [lia|]. cbn beta in Hfree. congruence.
    + injection H as <- <-. split; [done|].
      apply bool_decide_eq_false in Hb.
      split; [by apply eq_None_not_Some|]. by left.
  - destruct Hex as [[_ ?]|(e' & Hf & [= <-])]; [done|]. split; [done|]. left. eauto.
  - by destruct Hex as [[_ ?]|(e' & _ & ?)].
Qed.

Lemma resolve_collision_cases_witness :
  resolve_collision (calm_env secret_seed0 no_server) (PosixPath.of_str ".") crowded_here
  = (Raised (mkExn ValueError "PosixPath('.') has an empty name"), crowded_here)
  /\ PosixPath.name (PosixPath.of_str ".") = "".
Proof.
  assert (H : resolve_collision (calm_env secret_seed0 no_server) (PosixPath.of_str ".")
                crowded_here
              = (Raised (mkExn ValueError "PosixPath('.') has an empty name"), crowded_here))
    by (vm_compute; reflexivity).
  split; [exact H|].
  destruct (resolve_collision_cases (calm_env secret_seed0 no_server)
              (PosixPath.of_str ".") crowded_here _ _ eq_refl H) as [_ [[p Hp]|[Hn _]]];
    [discriminate Hp | exact Hn].
Defined.

(** C7 (as amended).  A call of [resolve_collision] on a path that
    [pathlib] has built changes nothing on disk and always ends.
    Whenever it returns, nothing exists at the path returned, which is
    the argument itself if nothing is there, and otherwise the first of
    the siblings named stem_1suffix, stem_2suffix, ... (the number goes
    before the extension, stem and suffix making up the name) at which
    nothing exists.  It does return when the path has a file name and the
    existence tests are answered.  Otherwise it may raise: the error of
    an existence test, or [ValueError] from [with_name] when the path has
    no name and exists. *)
Theorem resolve_collision_first_free (env : Env) (path : Path) (w : World)
    (r : Res Path) (w' : World) :
  well_formed path = true ->
  resolve_collision env path w = (r, w') ->
  w' = w
  /\ r <> Running
  /\ (forall q, r = Returned q ->
        fs w !! PosixPath.to_str q = None
        /\ PosixPath.stem path +:+ PosixPath.suffix path = PosixPath.name path
        /\ ((fs w !! PosixPath.to_str path = None /\ q = path)
            \/ (is_Some (fs w !! PosixPath.to_str path)
                /\ exists i, 1 <= i
                   /\ PosixPath.with_name path
                        (candidate_name (PosixPath.stem path) (PosixPath.suffix path) i)
                      = inr q
                   /\ forall j, 1 <= j < i ->
                        exists c,
                          PosixPath.with_name path
                            (candidate_name (PosixPath.stem path) (PosixPath.suffix path) j)
                          = inr c
                          /\ is_Some (fs w !! PosixPath.to_str c))))
  /\ (PosixPath.name path <> "" -> (forall p, fault env (OpStat p) = None) ->
      exists q, r = Returned q)
  /\ (forall e, r = Raised e ->
        (exists p, fault env (OpStat p) = Some e)
        \/ (PosixPath.name path = "" /\ is_Some (fs w !! PosixPath.to_str path)
            /\ kind e = ValueError)).
Proof.
  intros Hwf Hrun.
  assert (Hsure : PosixPath.name path <> "" -> (forall p, fault env (OpStat p) = None) ->
            exists q, r = Returned q).
  { intros Hname Hcalm.
    destruct (resolve_collision_answered env path w Hwf Hname Hcalm) as (q & Hq & _).
    rewrite Hq in Hrun. injection Hrun as <- _. by exists q. }
  unfold resolve_collision, resolve_collision_fuel in Hrun.
  apply bind_inv in Hrun as [(b & w1 & Hex & H)|[(e & Hex & ->)|[Hex ->]]];
    apply exists_inv in Hex as [-> Hex].
  - destruct Hex as [[_ [= ->]]|(e & _ & ?)]; [|done].
    destruct (bool_decide _) eqn:Hb; cbn [negb] in H.
    + apply bool_decide_eq_true in Hb. pose proof H as Hloop.
      apply resolve_collision_loop_cases in H as [-> H]; [|done..].
      split; [done|]. destruct r as [q|e|].
      * apply resolve_collision_loop_named in Hloop as Hname.
        pose proof (name_valid path Hwf Hname) as Hvalid.
        destruct H as (m & Hm & -> & Hfree & Hbusy).
        split; [done|]. split; [|split; [done|done]].
        intros q [= <-]. split; [done|]. split; [apply stem_suffix|].
        right. split; [done|]. exists m. split; [lia|]. split.
        -- apply with_name_sibling; [done|]. apply candidate_valid; [done|lia].
        -- intros j Hj. eexists. split.
           ++ apply with_name_sibling; [done|]. apply candidate_valid; [done|lia].
           ++ apply Hbusy. lia.
      * split; [done|]. split; [done|]. split; [done|].
        intros e' [= <-]. destruct H as [H|[Hn He]]; [by left|by right].
      * exfalso.
        destruct (free_key_exists (fs w) (fun i => PosixPath.to_str (candidate path i)))
          as (j & Hj & Hfree).
        { intros a b Hab. apply to_str_sibling_inj in Hab.
          by apply candidate_name_inj in Hab. }
        destruct (H j) as [n Hn]; [lia|]. cbn beta in Hfree. congruence.
    + injection H as <- <-. apply bool_decide_eq_false in Hb.
      split; [done|]. split; [done|]. split; [|split; [done|done]].
      intros q [= <-]. split; [by apply eq_None_not_Some|].
      split; [apply stem_suffix|]. left. split; [by apply eq_None_not_Some|done].
  - destruct Hex as [[_ ?]|(e' & Hf & [= <-])]; [done|].
    split; [done|]. split; [done|]. split; [done|]. split; [done|].
    intros e' [= <-]. left. eauto.
  - by destruct Hex as [[_ ?]|(e' & _ & ?)].
Qed.

Lemma resolve_collision_first_free_witness :
  exists q,
    resolve_collision (calm_env secret_seed0 no_server)
      (PosixPath.joinpath (PosixPath.of_str "pdfs") "a.pdf") crowded_pdfs
    = (Returned q, crowded_pdfs)
    /\ PosixPath.to_str q = "pdfs/a_2.pdf"
    /\ fs crowded_pdfs !! PosixPath.to_str q = None.
Proof.
  exists (mkPath "" ["pdfs"; "a_2.pdf"]).
  assert (H : resolve_collision (calm_env secret_seed0 no_server)
                (PosixPath.joinpath (PosixPath.of_str "pdfs") "a.pdf") crowded_pdfs
              = (Returned (mkPath "" ["pdfs"; "a_2.pdf"]), crowded_pdfs))
    by (vm_compute; reflexivity).
  split; [exact H|]. split; [reflexivity|].
  destruct (resolve_collision_first_free (calm_env secret_seed0 no_server)
              (PosixPath.joinpath (PosixPath.of_str "pdfs") "a.pdf") crowded_pdfs
              _ _ eq_refl H) as (_ & _ & Hq & _).
  exact (proj1 (Hq _ eq_refl)).
Defined.

(** C7, counterexample.  [resolve_collision] does not return a path for
    every path it is given.  On [Path(".")], which exists, [with_name]
    raises [ValueError]; and where the file system refuses names of more
    than 255 bytes, the first existence test on a longer name raises
    [OSError] (errno 36), which [download_one] and then [main] pass
    on. *)
Lemma resolve_collision_not_always_a_path :
  resolve_collision (calm_env secret_seed0 no_server) (PosixPath.of_str ".") crowded_here
  = (Raised (mkExn ValueError "PosixPath('.') has an empty name"), crowded_here)
  /\ resolve_collision short_names_env
       (PosixPath.joinpath (PosixPath.of_str "pdfs") long_name) empty_pdfs
     = (Raised (name_too_long ("pdfs/" +:+ long_name)), empty_pdfs)
  /\ fst (main short_names_env 1 "pdfs" ["http://host/" +:+ long_name] [0%nat] empty_pdfs)
     = Some (mkReport 1 [] [] (Crashed (name_too_long ("pdfs/" +:+ long_name)))).
Proof. repeat split; vm_compute; reflexivity. Qed.

(** ** What a call of [download_one] touches *)

Section FootprintFacts.
Import PosixPath.
Context (env : Env) (url : string).

(** every way a call of [download_one] can go *)
Lemma download_one_inv dest_dir w r w' :
  download_one env url dest_dir w = (r, w') ->
  match fst (plan_paths env url dest_dir w) with
  | Returned (dest, temp) =>
      fs w !! to_str dest = None
      /\ to_str temp = to_str dest +:+ ".part"
      /\ to_str temp <> to_str dest
      /\ ((exists e, r = Returned (url, false, message e)
             /\ only_at (to_str temp) w w')
          \/ (r = Returned (url, true, to_str dest)
              /\ exists w1 content,
                   only_at (to_str temp) w w1
                   /\ trace w' = fs w' :: trace w1
                   /\ fs w' = <[to_str dest := File content]> (delete (to_str temp) (fs w1))))
  | Raised e => r = Raised e /\ w' = w
  | Running => r = Running /\ w' = w
  end.
Proof.
  unfold download_one. intros H.
  apply bind_inv in H as [([dest temp] & w0 & Hplan & H)|[(e & Hplan & ->)|[Hplan ->]]];
    rewrite Hplan; cbn [fst];
    apply plan_paths_inv in Hplan as [-> Hplan]; [|done..].
  destruct (Hplan dest temp eq_refl) as (Hfree & Hne & Htemp).
  split; [done|]. split; [by apply part_text|]. split; [done|].
  unfold try_except in H.
  destruct (fetch_and_publish env get_session url dest temp w) as [rb w1] eqn:Hf.
  apply fetch_and_publish_inv in Hf
    as [(e & -> & Honly)|(-> & w2 & content & Honly & _ & Htrace & Hfs)].
  - apply cleanup_inv in H as (-> & Honly' & _). left. exists e.
    split; [done|]. by eapply only_at_trans.
  - injection H as <- <-. right. split; [done|]. eauto 6.
Qed.

(** the name that [filename_from_url] returns is not empty and holds no "/" *)
Lemma filename_from_url_plain nm :
  filename_from_url env url = inr nm -> nm <> "" /\ Py.contains "/" nm = false.
Proof.
  unfold filename_from_url.
  destruct (UrlParse.urlparse_path env url) as [e|path]; [discriminate|].
  set (raw := unquote _).
  set (name0 := if Py.is_empty raw then _ else raw).
  intros [= <-].
  assert (Hne : name0 <> "").
  { subst name0. destruct raw; [discriminate | done]. }
  split.
  - intros H. by do 2 apply replace_empty in H.
  - apply contains_replace_other; [done|]. by apply contains_replace_same.
Qed.

(** so it is a file name, unless it is "." *)
Lemma filename_from_url_valid nm :
  filename_from_url env url = inr nm -> nm <> "." -> valid_name nm = true.
Proof.
  intros H Hdot. apply filename_from_url_plain in H as [Hne Hs].
  by apply valid_name_intro.
Qed.

Lemma sibling_child r l x y : sibling (mkPath r (l ++ [x])) y = mkPath r (l ++ [y]).
Proof. unfold sibling. cbn [root names]. by rewrite removelast_last. Qed.

Lemma name_child r l x : name (mkPath r (l ++ [x])) = x.
Proof. unfold name. cbn [names]. apply last_last. Qed.

End FootprintFacts.





(** X16.  For a URL whose name is not ".", the destination that
    [download_one] works out and its temporary path are both directly in
    the output directory: the destination is called by the name from
    the URL, or by that name with a number before its extension, and the
    temporary path by the destination's name followed by ".part". *)
Theorem plan_paths_in_dest_dir (env : Env) (url dest_dir nm : string) (w w' : World)
    (dest temp : Path) :
  filename_from_url env url = inr nm ->
  nm <> "." ->
  plan_paths env url dest_dir w = (Returned (dest, temp), w') ->
  exists leaf,
    child_of (PosixPath.of_str dest_dir) leaf dest
    /\ child_of (PosixPath.of_str dest_dir) (leaf +:+ ".part") temp
    /\ (leaf = nm
        \/ exists i, 1 <= i
             /\ leaf = candidate_name
                         (PosixPath.stem (PosixPath.joinpath (PosixPath.of_str dest_dir) nm))
                         (PosixPath.suffix (PosixPath.joinpath (PosixPath.of_str dest_dir) nm))
                         i).
Proof.
  intros Hnm Hdot Hplan.
  pose proof (filename_from_url_valid _ _ _ Hnm Hdot) as Hvalid.
  pose proof (joinpath_leaf (PosixPath.of_str dest_dir) nm Hvalid) as Hjoin.
  unfold child_of in Hjoin.
  assert (Hwf : well_formed (PosixPath.joinpath (PosixPath.of_str dest_dir) nm) = true)
    by apply joinpath_well_formed, parse_well_formed.
  unfold plan_paths in Hplan. rewrite Hnm in Hplan.
  apply bind_inv in Hplan as [(nm' & w0 & Hl & Hplan)|[(e & _ & ?)|[_ ?]]]; [|done..].
  injection Hl as <- <-.
  apply bind_inv in Hplan as [(d & w1 & Hd & Hplan)|[(e & _ & ?)|[_ ?]]]; [|done..].
  apply bind_inv in Hplan as [(t & w2 & Ht & Hplan)|[(e & _ & ?)|[_ ?]]]; [|done..].
  injection Hplan as <- <- <-.
  apply lift_inv in Ht as [_ Ht].
  destruct (PosixPath.with_name d _) as [|t'] eqn:Hw; [done|]. injection Ht as ->.
  apply with_name_inv in Hw as [_ ->].
  apply resolve_collision_sibling in Hd; [|done].
  assert (Hleaf : exists leaf,
            d = mkPath (PosixPath.root (PosixPath.of_str dest_dir))
                  (PosixPath.names (PosixPath.of_str dest_dir) ++ [leaf])
            /\ (leaf = nm
                \/ exists i, 1 <= i
                     /\ leaf = candidate_name
                          (PosixPath.stem (PosixPath.joinpath (PosixPath.of_str dest_dir) nm))
                          (PosixPath.suffix (PosixPath.joinpath (PosixPath.of_str dest_dir) nm))
                          i)).
  { destruct Hd as [->|(i & Hi & ->)].
    - exists nm. split; [done|]. by left.
    - eexists. split; [|right; exists i; split; [lia|reflexivity]].
      unfold candidate. rewrite Hjoin at 1. apply sibling_child. }
  destruct Hleaf as (leaf & -> & Hleaf). exists leaf.
  split; [done|]. split; [|done].
  unfold child_of. by rewrite name_child, sibling_child.
Qed.

Lemma plan_paths_in_dest_dir_witness :
  exists leaf,
    child_of (PosixPath.of_str "pdfs") leaf (mkPath "" ["pdfs"; "a_2.pdf"])
    /\ child_of (PosixPath.of_str "pdfs") (leaf +:+ ".part") (mkPath "" ["pdfs"; "a_2.pdf.part"]).
Proof.
  destruct (plan_paths_in_dest_dir (calm_env secret_seed0 no_server)
              "http://host/a.pdf" "pdfs" "a.pdf" crowded_pdfs crowded_pdfs
              (mkPath "" ["pdfs"; "a_2.pdf"]) (mkPath "" ["pdfs"; "a_2.pdf.part"]))
    as (leaf & H1 & H2 & _);
    [vm_compute; reflexivity | discriminate | vm_compute; reflexivity |].
  exists leaf. split; [exact H1 | exact H2].
Defined.

(** ** The loop over the futures *)

Section CollectFacts.
Context (futures : list (Res Outcome)).

(** the loop adds to [reported] and [results] only, and what it adds to
    [results] are the failures among what it adds to [reported] *)
Lemma collect_appends order : forall rep res rep' res' en,
  collect futures order rep res = (rep', res', en) ->
  exists new, rep' = rep ++ new /\ res' = res ++ failures new.
Proof.
  induction order as [|i order IH]; intros rep res rep' res' en; cbn [collect].
  - intros [= <- <- <-]. exists []. by rewrite !app_nil_r.
  - destruct (futures !! i) as [[[[u ok] info]|e|]|].
    + destruct ok; intros H; apply IH in H as (new & -> & ->).
      * exists ((u, true, info) :: new). split; [by rewrite <- app_assoc|done].
      * exists ((u, false, info) :: new). split; [by rewrite <- app_assoc|].
        by rewrite <- app_assoc.
    + intros [= <- <- <-]. exists []. by rewrite !app_nil_r.
    + intros [= <- <- <-]. exists []. by rewrite !app_nil_r.
    + apply IH.
Qed.

(** as long as the futures handed out hold outcomes, each is reported *)
Lemma collect_returned pre : forall rest rep res,
  Forall (returned futures) pre ->
  collect futures (pre ++ rest) rep res
  = collect futures rest (rep ++ omap (outcome_of futures) pre)
      (res ++ failures (omap (outcome_of futures) pre)).
Proof.
  induction pre as [|i pre IH]; intros rest rep res Hall.
  - cbn [omap list_omap app failures]. by rewrite !app_nil_r.
  - apply Forall_cons in Hall as [[o Ho] Hall].
    cbn [app collect omap list_omap]. rewrite Ho.
    unfold outcome_of in Ho.
    destruct (futures !! i) as [[o'|e|]|]; [|done..]. injection Ho as ->.
    destruct o as [[u ok] info]. destruct ok; rewrite IH by done.
    + by rewrite <- app_assoc.
    + rewrite <- !app_assoc. done.
Qed.

(** where the loop stops, and what it has reported by then *)
Lemma collect_spec order : forall rep res rep' res' en,
  collect futures order rep res = (rep', res', en) ->
  exists handed,
    handed `prefix_of` order
    /\ rep' = rep ++ omap (outcome_of futures) handed
    /\ match en with
       | Finished => handed = order
       | Crashed e => exists i post, order = handed ++ i :: post
                        /\ futures !! i = Some (Raised e)
       | Blocked => exists i post, order = handed ++ i :: post
                      /\ futures !! i = Some Running
       end.
Proof.
  induction order as [|i order IH]; intros rep res rep' res' en; cbn [collect].
  - intros [= <- <- <-]. exists []. by rewrite app_nil_r.
  - destruct (futures !! i) as [[[[u ok] info]|e|]|] eqn:Hi.
    + assert (Ho : outcome_of futures i = Some (u, ok, info))
        by (unfold outcome_of, Outcome in *; by rewrite Hi).
      assert (Hstep : forall rs, collect futures order (rep ++ [(u, ok, info)]) rs
                                 = (rep', res', en) ->
        exists handed, handed `prefix_of` i :: order
          /\ rep' = rep ++ omap (outcome_of futures) handed
          /\ match en with
             | Finished => handed = i :: order
             | Crashed e => exists j post, i :: order = handed ++ j :: post
                              /\ futures !! j = Some (Raised e)
             | Blocked => exists j post, i :: order = handed ++ j :: post
                            /\ futures !! j = Some Running
             end).
      { intros rs H. apply IH in H as (handed & Hpre & -> & Hen).
        exists (i :: handed). split; [by apply prefix_cons|].
        split; [cbn [omap list_omap]; by rewrite Ho, <- app_assoc|].
        destruct en as [|e|]; [by rewrite Hen|..];
          destruct Hen as (j & post & -> & Hj); by exists j, post. }
      destruct ok; apply Hstep.
    + intros [= <- <- <-]. exists []. split; [apply prefix_nil|].
      split; [by rewrite app_nil_r|]. by exists i, order.
    + intros [= <- <- <-]. exists []. split; [apply prefix_nil|].
      split; [by rewrite app_nil_r|]. by exists i, order.
    + intros H. apply IH in H as (handed & Hpre & -> & Hen).
      assert (Ho : outcome_of futures i = None)
        by (unfold outcome_of, Outcome in *; by rewrite Hi).
      exists (i :: handed). split; [by apply prefix_cons|].
      split; [cbn [omap list_omap]; by rewrite Ho|].
      destruct en as [|e|]; [by rewrite Hen|..];
        destruct Hen as (j & post & -> & Hj); by exists j, post.
Qed.

End CollectFacts.

Section PoolFacts.
Context (env : Env) (dest_dir : string).

Lemma download_one_returns_url url w o w' :
  download_one env url dest_dir w = (Returned o, w') -> outcome_url o = url.
Proof.
  intros H. apply download_one_inv in H.
  destruct (fst (plan_paths env url dest_dir w)) as [[dest temp]|e|]; [|by destruct H..].
  by destruct H as (_ & _ & _ & [(e & [= ->] & _)|([= ->] & _)]).
Qed.

(** the outcome of the [i]-th task is about the [i]-th URL *)
Lemma run_pool_urls urls : forall w i o,
  fst (run_pool env dest_dir urls w) !! i = Some (Returned o) ->
  urls !! i = Some (outcome_url o).
Proof.
  induction urls as [|u urls IH]; intros w i o; cbn [run_pool]; [done|].
  destruct (download_one env u dest_dir w) as [r w1] eqn:Hd.
  specialize (IH w1). destruct (run_pool env dest_dir urls w1) as [rs w2].
  cbn [fst] in *. destruct i as [|i]; cbn [lookup list_lookup].
  - intros [= ->]. by rewrite (download_one_returns_url _ _ _ _ Hd).
  - apply IH.
Qed.

Lemma run_pool_total urls : forall w,
  Forall (fun r => r <> Running) (fst (run_pool env dest_dir urls w)).
Proof.
  induction urls as [|u urls IH]; intros w; cbn [run_pool]; [done|].
  pose proof (download_one_total env u dest_dir w) as Hd.
  destruct (download_one env u dest_dir w) as [r w1].
  specialize (IH w1). destruct (run_pool env dest_dir urls w1) as [rs w2].
  cbn [fst] in *. by constructor.
Qed.

End PoolFacts.

Lemma omap_outcome_of_seq (outs : list Outcome) (fs_ : list (Res Outcome)) :
  omap (outcome_of (fs_ ++ (Returned <$> outs))) (seq (length fs_) (length outs)) = outs.
Proof.
  revert fs_. induction outs as [|o outs IH]; intros fs_; [done|].
  cbn [length seq omap list_omap fmap list_fmap].
  unfold outcome_of at 1. rewrite lookup_app_r, Nat.sub_diag by done.
  cbn [lookup list_lookup]. f_equal.
  specialize (IH (fs_ ++ [Returned o])).
  rewrite <- app_assoc, length_app in IH. cbn [length app] in IH.
  by rewrite Nat.add_1_r in IH.
Qed.

(** X12.  The list [results] that the summary prints holds exactly the
    failures among the outcomes reported, in the order they were
    reported; and the outcomes reported are those of the futures handed
    out up to where the loop stopped, in that order. *)
Theorem results_are_the_failures (env : Env) (W : Z) (dest_dir : string)
    (urls : list string) (order : list nat) (w : World) (report : Report) :
  fst (main env W dest_dir urls order w) = Some report ->
  results report = failures (reported report)
  /\ exists handed,
       handed `prefix_of` order
       /\ reported report = omap (outcome_of (fst (run_pool env dest_dir urls w))) handed
       /\ (ending report = Finished -> handed = order).
Proof.
  unfold main. destruct urls as [|u us]; [done|].
  destruct (run_pool env dest_dir (u :: us) w) as [futures w1].
  destruct (collect futures order [] []) as [[rep res] en] eqn:Hc.
  cbn [fst]. intros [= <-]. cbn [results reported ending].
  destruct (collect_appends _ _ _ _ _ _ _ Hc) as (new & -> & ->).
  split; [done|].
  destruct (collect_spec _ _ _ _ _ _ _ Hc) as (handed & Hpre & Hrep & Hen).
  exists handed. split; [done|]. split; [done|]. by intros ->.
Qed.

Lemma results_are_the_failures_witness :
  exists report,
    fst (main (calm_env secret_seed0 cut_server) 4 "pdfs"
           ["http://host/a.pdf"; "http://host/b.pdf"] [1%nat; 0%nat] empty_pdfs) = Some report
    /\ results report = failures (reported report)
    /\ results report = [("http://host/b.pdf", "Connection broken: IncompleteRead");
                         ("http://host/a.pdf", "Connection broken: IncompleteRead")].
Proof.
  eexists. split; [vm_compute; reflexivity|]. split.
  - eapply (results_are_the_failures (calm_env secret_seed0 cut_server) 4 "pdfs"
              ["http://host/a.pdf"; "http://host/b.pdf"] [1%nat; 0%nat] empty_pdfs).
    vm_compute. reflexivity.
  - vm_compute. reflexivity.
Defined.

(** X13.  When every task returns an outcome and every future is handed
    out once, each URL of the list is reported exactly once: the URLs of
    the outcomes reported are the URLs of the list, in the order the
    tasks completed, and the loop reaches the summary. *)
Theorem main_reports_each_url_once (env : Env) (W : Z) (dest_dir : string)
    (urls : list string) (order : list nat) (w : World) :
  urls <> [] ->
  order ≡ₚ seq 0 (length urls) ->
  Forall (fun r => exists o, r = Returned o) (fst (run_pool env dest_dir urls w)) ->
  exists report,
    fst (main env W dest_dir urls order w) = Some report
    /\ ending report = Finished
    /\ reported report = omap (outcome_of (fst (run_pool env dest_dir urls w))) order
    /\ Returned <$> reported report ≡ₚ fst (run_pool env dest_dir urls w)
    /\ outcome_url <$> reported report ≡ₚ urls.
Proof.
  intros Hne Hperm Hall. unfold main. destruct urls as [|u us]; [done|].
  pose proof (run_pool_length env dest_dir (u :: us) w) as Hlen.
  pose proof (run_pool_urls env dest_dir (u :: us) w) as Hurls.
  destruct (run_pool env dest_dir (u :: us) w) as [futures w1]. cbn [fst] in *.
  assert (Houts : exists outs, futures = Returned <$> outs).
  { clear -Hall. induction Hall as [|r rs [o ->] _ [outs ->]]; [by exists []|].
    by exists (o :: outs). }
  destruct Houts as [outs ->]. rewrite length_fmap in Hlen.
  assert (Hret : Forall (returned (Returned <$> outs)) order).
  { apply Forall_forall. intros i Hi. rewrite Hperm in Hi. apply elem_of_seq in Hi.
    destruct (lookup_lt_is_Some_2 outs i) as [o Ho]; [lia|].
    exists o. unfold outcome_of. by rewrite list_lookup_fmap, Ho. }
  pose proof (collect_returned (Returned <$> outs) order [] [] [] Hret) as Hc.
  rewrite app_nil_r in Hc. cbn [collect app] in Hc. rewrite Hc.
  eexists. split; [reflexivity|]. cbn [reported ending].
  assert (Hrep : omap (outcome_of (Returned <$> outs)) order ≡ₚ outs).
  { rewrite Hperm, <- Hlen. pose proof (omap_outcome_of_seq outs []) as E.
    cbn [app length] in E. by rewrite E. }
  split; [done|]. split; [done|]. split; [by rewrite Hrep|].
  rewrite Hrep. assert (outcome_url <$> outs = u :: us) as ->; [|done].
  apply list_eq. intros i.
  rewrite list_lookup_fmap. destruct (outs !! i) as [o|] eqn:Ho; cbn.
  - symmetry. apply Hurls. by rewrite list_lookup_fmap, Ho.
  - symmetry. apply lookup_ge_None. apply lookup_ge_None in Ho. lia.
Qed.

Lemma main_reports_each_url_once_witness :
  exists report,
    fst (main (calm_env secret_seed0 pdf_server) 4 "pdfs"
           ["http://host/a.pdf"; "http://host/b.pdf"] [1%nat; 0%nat] empty_pdfs) = Some report
    /\ reported report = [("http://host/b.pdf", true, "pdfs/b.pdf");
                          ("http://host/a.pdf", true, "pdfs/a.pdf")].
Proof.
  destruct (main_reports_each_url_once (calm_env secret_seed0 pdf_server) 4 "pdfs"
              ["http://host/a.pdf"; "http://host/b.pdf"] [1%nat; 0%nat] empty_pdfs)
    as (report & Hm & _ & Hr & _).
  - discriminate.
  - apply perm_swap.
  - vm_compute. repeat constructor; eexists; reflexivity.
  - exists report. split; [exact Hm|]. rewrite Hr. vm_compute. reflexivity.
Defined.

(** X14.  The loop over the futures ends at the first future whose task
    raised: the outcomes handed out before it are reported, the error is
    raised in [main], and no outcome that completes later is reported,
    although every task of the pool has run by the time [main] is left
    (the [with] block waits for them). *)
Theorem main_stops_at_first_error (env : Env) (W : Z) (dest_dir : string)
    (urls : list string) (w : World) (pre post : list nat) (i : nat) (e : Exn) :
  urls <> [] ->
  Forall (returned (fst (run_pool env dest_dir urls w))) pre ->
  fst (run_pool env dest_dir urls w) !! i = Some (Raised e) ->
  main env W dest_dir urls (pre ++ i :: post) w
  = (Some (mkReport (effective_workers W urls)
             (omap (outcome_of (fst (run_pool env dest_dir urls w))) pre)
             (failures (omap (outcome_of (fst (run_pool env dest_dir urls w))) pre))
             (Crashed e)),
     snd (run_pool env dest_dir urls w)).
Proof.
  intros Hne Hpre Hi. unfold main. destruct urls as [|u us]; [done|].
  destruct (run_pool env dest_dir (u :: us) w) as [futures w1]. cbn [fst snd] in *.
  rewrite collect_returned by done. cbn [collect app]. unfold Outcome in *. by rewrite Hi.
Qed.

Lemma main_stops_at_first_error_witness :
  exists w',
    main (calm_env secret_seed0 pdf_server) 4 "pdfs"
      ["http://host/a.pdf"; "http://["; "http://host/c.pdf"] [0%nat; 1%nat; 2%nat] empty_pdfs
    = (Some (mkReport 3 [("http://host/a.pdf", true, "pdfs/a.pdf")] []
               (Crashed UrlParse.invalid_ipv6)), w')
    /\ fs w' !! "pdfs/c.pdf" = Some (File ["%"; "P"; "D"; "F"]%byte).
Proof.
  eexists. split.
  - exact (main_stops_at_first_error (calm_env secret_seed0 pdf_server) 4 "pdfs"
             ["http://host/a.pdf"; "http://["; "http://host/c.pdf"] empty_pdfs
             [0%nat] [2%nat] 1 UrlParse.invalid_ipv6
             ltac:(discriminate)
             ltac:(repeat constructor; vm_compute; eexists; reflexivity)
             ltac:(vm_compute; reflexivity)).
  - vm_compute. reflexivity.
Defined.

(** X15.  Every call of [download_one] ends, whatever the servers and
    the operating system answer: the retries are bounded and the loop
    of [resolve_collision] finds a free name.  So no future of the pool
    is left without a result, and [main] never waits for ever. *)
Theorem main_never_blocked (env : Env) (W : Z) (dest_dir : string)
    (urls : list string) (order : list nat) (w : World) :
  Forall (fun r => r <> Running) (fst (run_pool env dest_dir urls w))
  /\ match fst (main env W dest_dir urls order w) with
     | Some report => ending report <> Blocked
     | None => urls = []
     end.
Proof.
  pose proof (run_pool_total env dest_dir urls w) as Htot.
  split; [done|]. unfold main. destruct urls as [|u us]; [done|].
  destruct (run_pool env dest_dir (u :: us) w) as [futures w1]. cbn [fst] in *.
  destruct (collect futures order [] []) as [[rep res] en] eqn:Hc.
  cbn [fst ending]. intros ->.
  apply collect_spec in Hc as (handed & _ & _ & j & post & _ & Hj).
  rewrite Forall_forall in Htot. apply (Htot Running); [|done].
  by eapply list_elem_of_lookup_2.
Qed.

(** ** The errors that leave [download_one] *)

Section EscapeFacts.
Import PosixPath.
Context (env : Env).

Lemma valid_name_part nm : valid_name nm = true -> valid_name (nm +:+ ".part") = true.
Proof.
  unfold valid_name. intros H. apply andb_prop in H as [H Hs].
  apply andb_prop in H as [Hne _]. apply negb_true_iff in Hs.
  rewrite contains_app, Hs.
  assert (Hdot : nm +:+ ".part" <> ".").
  { intros E. apply (f_equal String.length) in E. rewrite str_length_app in E.
    cbn in E. lia. }
  apply String.eqb_neq in Hdot. rewrite Hdot. by destruct nm.
Qed.

(** the path that [resolve_collision] returns has a name whenever its
    argument has one *)
Lemma resolve_collision_named path w q w' :
  well_formed path = true ->
  name path <> "" ->
  resolve_collision env path w = (Returned q, w') ->
  valid_name (name q) = true.
Proof.
  intros Hwf Hname H.
  pose proof (name_valid path Hwf Hname) as Hvalid.
  apply resolve_collision_sibling in H as [->|(i & Hi & ->)]; [done| |done].
  unfold candidate, sibling, name. cbn [names]. rewrite last_last.
  by apply candidate_valid.
Qed.

(** [resolve_collision] returns a path without a name only if that is
    its argument *)
Lemma resolve_collision_nameless path w q w' :
  name path = "" ->
  resolve_collision env path w = (Returned q, w') -> q = path.
Proof.
  intros Hname. unfold resolve_collision, resolve_collision_fuel. intros H.
  apply bind_inv in H as [(b & w3 & Hex & H)|[(e' & _ & ?)|[_ ?]]]; [|done..].
  destruct (negb b); [by injection H as <- _|].
  by apply resolve_collision_loop_named in H.
Qed.

Lemma resolve_collision_raises path w e w' :
  well_formed path = true ->
  resolve_collision env path w = (Raised e, w') ->
  (exists p, fault env (OpStat p) = Some e)
  \/ (name path = "" /\ kind e = ValueError).
Proof.
  intros Hwf. unfold resolve_collision, resolve_collision_fuel. intros H.
  apply bind_inv in H as [(b & w3 & Hex & H)|[(e' & Hex & [= <-])|[_ ?]]]; [| |done];
    apply exists_inv in Hex as [-> Hex].
  - destruct (negb b); [done|].
    by apply resolve_collision_loop_cases in H as [_ H].
  - destruct Hex as [[_ ?]|(e' & Hf & [= <-])]; [done|]. left. eauto.
Qed.

(** a name joined to a directory that has a name gives a path with a name *)
Lemma joinpath_named p nm :
  well_formed p = true -> names p <> [] ->
  nm <> "" -> Py.contains "/" nm = false ->
  name (joinpath p nm) <> "".
Proof.
  intros Hwf Hp Hne Hs.
  destruct (decide (nm = ".")) as [->|Hdot].
  - unfold joinpath. change (parse ".") with (mkPath "" []). cbn [root names Py.is_empty].
    rewrite app_nil_r. unfold name. cbn [names].
    unfold well_formed in Hwf.
    rewrite (app_removelast_last "" Hp), forallb_app in Hwf.
    apply andb_prop in Hwf as [_ Hl]. cbn [forallb] in Hl.
    rewrite andb_true_r in Hl. unfold valid_name in Hl.
    intros E. by rewrite E in Hl.
  - pose proof (joinpath_leaf p nm (valid_name_intro nm Hne Hdot Hs)) as ->.
    unfold name. cbn [names]. by rewrite last_last.
Qed.

(** how working out the paths can fail *)
Lemma plan_paths_raises url dest_dir w e w' :
  plan_paths env url dest_dir w = (Raised e, w') ->
  filename_from_url env url = inl e
  \/ (exists p, fault env (OpStat p) = Some e)
  \/ (exists nm, filename_from_url env url = inr nm
        /\ name (joinpath (of_str dest_dir) nm) = ""
        /\ kind e = ValueError).
Proof.
  unfold plan_paths. intros H.
  destruct (filename_from_url env url) as [e0|nm] eqn:Hf.
  { injection H as <- _. by left. }
  right. cbn [lift] in H. unfold bind at 1, ret at 1 in H.
  assert (Hwf : well_formed (joinpath (of_str dest_dir) nm) = true)
    by apply joinpath_well_formed, parse_well_formed.
  apply bind_inv in H as [(d & w1 & Hd & H)|[(e' & Hd & [= <-])|[_ ?]]]; [| |done].
  - (* [resolve_collision] returned, so [with_name] raised *)
    apply bind_inv in H as [(t & w2 & Ht & H)|[(e' & Ht & [= <-])|[_ ?]]]; [done| |done].
    apply lift_inv in Ht as [_ Ht].
    destruct (name (joinpath (of_str dest_dir) nm)) eqn:En.
    + right. exists nm. split; [done|]. split; [done|].
      apply resolve_collision_nameless in Hd as ->; [|done].
      unfold with_name in Ht. rewrite En in Ht. cbn [Py.is_empty] in Ht.
      by injection Ht as ->.
    + exfalso.
      apply resolve_collision_named in Hd; [|done|by rewrite En].
      unfold with_name in Ht. rewrite (valid_name_part _ Hd) in Ht.
      unfold valid_name in Hd. by destruct (name d).
  - (* [resolve_collision] raised *)
    apply resolve_collision_raises in Hd as [Hd|[Hn He]]; [by left| |done].
    right. eauto.
Qed.

End EscapeFacts.

(** X17.  The only errors that leave [download_one] as exceptions are
    those of lines 64 to 67, which are outside the [try]: [ValueError]
    from [urlparse] in [filename_from_url], the error of an existence
    test in [resolve_collision], and [ValueError] from [with_name] when
    the destination has no name (the name from the URL is "." and the
    output directory is the working directory or a root).  In each case
    nothing has been written.  Every error raised once the [try] is
    entered comes back as a failed outcome. *)
Theorem download_one_raises_only_before_try (env : Env) (url dest_dir : string)
    (w : World) (e : Exn) (w' : World) :
  download_one env url dest_dir w = (Raised e, w') ->
  w' = w
  /\ fst (plan_paths env url dest_dir w) = Raised e
  /\ (filename_from_url env url = inl e
      \/ (exists p, fault env (OpStat p) = Some e)
      \/ (exists nm, filename_from_url env url = inr nm
            /\ PosixPath.name (PosixPath.joinpath (PosixPath.of_str dest_dir) nm) = ""
            /\ kind e = ValueError)).
Proof.
  intros H. apply download_one_inv in H.
  destruct (plan_paths env url dest_dir w) as [rp w0] eqn:Hp. cbn [fst] in H.
  destruct rp as [[dest temp]|e0|].
  - by destruct H as (_ & _ & _ & [(e1 & ? & _)|(? & _)]).
  - destruct H as [[= <-] ->]. split; [done|]. split; [done|].
    by eapply plan_paths_raises.
  - by destruct H.
Qed.

Lemma download_one_raises_only_before_try_witness :
  download_one (calm_env secret_seed0 pdf_server) "http://host/." "." crowded_here
  = (Raised (mkExn ValueError "PosixPath('.') has an empty name"), crowded_here)
  /\ PosixPath.name (PosixPath.joinpath (PosixPath.of_str ".") ".") = "".
Proof.
  assert (H : download_one (calm_env secret_seed0 pdf_server) "http://host/." "." crowded_here
              = (Raised (mkExn ValueError "PosixPath('.') has an empty name"), crowded_here))
    by (vm_compute; reflexivity).
  split; [exact H|].
  destruct (download_one_raises_only_before_try _ _ _ _ _ _ H)
    as (_ & _ & [Hn|[[p Hp]|(nm & Hn & Hname & _)]]);
    [discriminate Hn | discriminate Hp |].
  vm_compute in Hn. injection Hn as <-. exact Hname.
Defined.

(** X18.  When [urlparse] accepts every URL of the list, no existence
    test is refused and the output directory has a name, every task of
    the pool returns an outcome: no exception reaches [main], whatever
    the servers answer and whatever else fails on disk. *)
Theorem run_pool_all_return (env : Env) (dest_dir : string) (urls : list string)
    (w : World) :
  Forall (fun url => exists nm, filename_from_url env url = inr nm) urls ->
  (forall p, fault env (OpStat p) = None) ->
  PosixPath.names (PosixPath.of_str dest_dir) <> [] ->
  Forall (fun r => exists o, r = Returned o) (fst (run_pool env dest_dir urls w)).
Proof.
  intros Hurls Hstat Hdir. revert w.
  induction Hurls as [|u urls [nm Hu] _ IH]; intros w; cbn [run_pool]; [done|].
  pose proof (download_one_total env u dest_dir w) as Htot.
  destruct (download_one env u dest_dir w) as [r w1] eqn:Hd.
  specialize (IH w1). destruct (run_pool env dest_dir urls w1) as [rs w2].
  cbn [fst] in *. constructor; [|done].
  destruct r as [o|e|]; [by exists o| |done]. exfalso.
  apply download_one_inv in Hd.
  destruct (plan_paths env u dest_dir w) as [rp w0] eqn:Hp. cbn [fst] in Hd.
  destruct rp as [[dest temp]|e0|];
    [by destruct Hd as (_ & _ & _ & [(e1 & ? & _)|(? & _)])| |by destruct Hd].
  apply plan_paths_raises in Hp as [Hp|[[p Hp]|(nm' & Hn & Hname & _)]].
  - congruence.
  - by rewrite Hstat in Hp.
  - assert (nm' = nm) as -> by congruence.
    destruct (filename_from_url_plain _ _ _ Hu) as [Hne Hs].
    by apply (joinpath_named (PosixPath.of_str dest_dir) nm (parse_well_formed dest_dir)).
Qed.

Lemma run_pool_all_return_witness :
  Forall (fun r : Res Outcome => exists o, r = Returned o)
    (fst (run_pool (calm_env secret_seed0 cut_server) "pdfs"
            ["http://host/a.pdf"; "http://host/."] empty_pdfs)).
Proof.
  apply run_pool_all_return.
  - repeat constructor; eexists; vm_compute; reflexivity.
  - reflexivity.
  - discriminate.
Defined.
